(** * oas2: OpenAPI 2.0 router, middleware and parameter conversion

    A shallow embedding of [convert.go], [middleware.go] and the router
    source of the [oas2] package, followed by the properties the
    specification states about them.

    Conventions of the embedding:
    - a Go [string] is a [string] (a sequence of bytes, one [ascii] each);
      a Go [[]byte] or byte stream is a [list byte];
    - a Go result pair [(value, err)] in which exactly one side is non-nil is
      a sum: [inl value] or [inr err];
    - Go maps used as dictionaries are [gmap]s, Go maps used as sets are
      [gset]s;
    - [http.Handler]s are state transformers over a [World] holding what the
      client has received so far, the response recorders and a journal of
      observed calls. *)

From Stdlib Require Import ZArith String Ascii List Bool Lia.
From Stdlib Require Import Strings.Byte Numbers.DecimalString.
From stdpp Require Import base gmap list strings.

Import ListNotations.
Local Open Scope string_scope.
Local Open Scope Z_scope.

(** ** The Go runtime pieces the package relies on

    Floating point numbers and the Unicode case tables are kept abstract:
    [ParseFloat s bitSize] is [strconv.ParseFloat] ([None] when it returns an
    error), [float32_of] is the conversion [float32(f)], and
    [unicode_ToLower] is [strings.Map(unicode.ToLower, s)], the path
    [strings.ToLower] takes on input that is not pure ASCII. *)

Class GoRuntime := {
  float64 : Type;
  float32 : Type;
  ParseFloat : string -> Z -> option float64;
  float32_of : float64 -> float32;
  unicode_ToLower : string -> string
}.

(** ** Errors

    Every [fmt.Errorf] call site of the package is one constructor; the
    message it formats is given by [Error_message]. [ErrViolation] stands for
    the errors produced by the validators, which live outside these files. *)

Inductive Error :=
| ErrNotImplemented (typ : string)
| ErrValuesCount (n : nat)
| ErrUnknownType (typ : string)
| ErrUnknownFormat (format forType : string)
| ErrCannotConvert (val target : string)
| ErrInvalidJSON
| ErrViolation (msg : string).

Definition Error_message (e : Error) : string :=
  match e with
  | ErrNotImplemented typ => "type " +:+ typ +:+ ": NOT IMPLEMENTED"
  | ErrValuesCount n =>
      "values count is " +:+ NilEmpty.string_of_uint (Nat.to_uint n) +:+ ", want 1"
  | ErrUnknownType typ => "unknown type: " +:+ typ
  | ErrUnknownFormat format forType =>
      "unknown format " +:+ format +:+ " for type " +:+ forType
  | ErrCannotConvert val target => "cannot convert " +:+ val +:+ " to " +:+ target
  | ErrInvalidJSON => "Body contains invalid json"
  | ErrViolation msg => msg
  end.

(** ** strconv.ParseInt

    [ParseUint] and [ParseInt] follow strconv/atoi.go. The accumulator is a
    [uint64]: its wrap-around is written out with [wrap64]. Base 0 (prefix
    detection and underscores) is not modelled: convert.go always passes
    base 10. *)

Inductive NumError := ErrSyntax | ErrRange.

Definition wrap64 (z : Z) : Z := z mod 2 ^ 64.
Definition to_int64 (z : Z) : Z := (z + 2 ^ 63) mod 2 ^ 64 - 2 ^ 63.
Definition to_int32 (z : Z) : Z := (z + 2 ^ 31) mod 2 ^ 32 - 2 ^ 31.
Definition maxUint64 : Z := 2 ^ 64 - 1.

Definition byte_code (c : ascii) : Z := Z.of_N (N_of_ascii c).

(** [lower(c)] of strconv: [c | ('x' - 'X')]. *)
Definition strconv_lower (c : Z) : Z := Z.lor c 32.

(** The digit value of one byte, or [None] for the [default] branch of the
    switch in [ParseUint]. *)
Definition digit_value (c : ascii) : option Z :=
  let n := byte_code c in
  if (48 <=? n) && (n <=? 57) then Some (n - 48)
  else if (97 <=? strconv_lower n) && (strconv_lower n <=? 122)
       then Some (strconv_lower n - 97 + 10)
       else None.

Fixpoint ParseUint_loop (cs : list ascii) (base cutoff maxVal n : Z)
  : Z * option NumError :=
  match cs with
  | [] => (n, None)
  | c :: cs' =>
      match digit_value c with
      | None => (0, Some ErrSyntax)
      | Some d =>
          if base <=? d then (0, Some ErrSyntax)
          else if cutoff <=? n then (maxVal, Some ErrRange)
          else
            let n' := wrap64 (n * base) in
            let n1 := wrap64 (n' + d) in
            if (n1 <? n') || (maxVal <? n1) then (maxVal, Some ErrRange)
            else ParseUint_loop cs' base cutoff maxVal n1
      end
  end.

Definition ParseUint (s : string) (base bitSize : Z) : Z * option NumError :=
  match s with
  | "" => (0, Some ErrSyntax)
  | _ =>
      let cutoff := maxUint64 / base + 1 in
      let maxVal := wrap64 (wrap64 (Z.shiftl 1 bitSize) - 1) in
      ParseUint_loop (list_ascii_of_string s) base cutoff maxVal 0
  end.

Definition ParseInt (s : string) (base bitSize : Z) : Z * option NumError :=
  match s with
  | "" => (0, Some ErrSyntax)
  | String c rest =>
      let neg := Ascii.eqb c "-" in
      let s' := if Ascii.eqb c "+" || Ascii.eqb c "-" then rest else s in
      let '(un, err) := ParseUint s' base bitSize in
      match err with
      | Some ErrSyntax => (0, err)
      | _ =>
          let cutoff := Z.shiftl 1 (bitSize - 1) in
          if negb neg && (cutoff <=? un) then (cutoff - 1, Some ErrRange)
          else if neg && (cutoff <? un) then (- cutoff, Some ErrRange)
          else
            let n := to_int64 un in
            (if neg then to_int64 (- n) else n, None)
      end
  end.

(** ** strings.ToLower *)

Definition is_ascii_upper (c : ascii) : bool :=
  (65 <=? byte_code c) && (byte_code c <=? 90).

Definition ascii_lower (c : ascii) : ascii :=
  if is_ascii_upper c then ascii_of_N (N_of_ascii c + 32) else c.

Fixpoint map_string (f : ascii -> ascii) (s : string) : string :=
  match s with
  | "" => ""
  | String c s' => String (f c) (map_string f s')
  end.

Definition isASCII (s : string) : bool :=
  forallb (fun c => byte_code c <? 128) (list_ascii_of_string s).

Definition hasUpper (s : string) : bool :=
  existsb is_ascii_upper (list_ascii_of_string s).

Section Convert.
Context `{rt : GoRuntime}.

Definition ToLower (s : string) : string :=
  if isASCII s then
    if negb (hasUpper s) then s else map_string ascii_lower s
  else unicode_ToLower s.

(** ** convert.go *)

(** The dynamic values [ConvertPrimitive] returns in its [interface{}]. *)
Inductive Value :=
| VString (s : string)
| VInt32 (i : Z)
| VInt64 (i : Z)
| VFloat32 (f : float32)
| VFloat64 (f : float64)
| VBool (b : bool).

Definition evaluatesAsTrue : gset string :=
  {[ "true"; "1"; "yes"; "ok"; "y"; "on"; "selected"; "checked"; "t"; "enabled" ]}.

Definition convertString (val format : string) : Value + Error :=
  if String.eqb format "" then inl (VString val)
  else inr (ErrUnknownFormat format "string").

Definition convertInteger (val format : string) : Value + Error :=
  if String.eqb format "int32" then
    match ParseInt val 10 32 with
    | (i, None) => inl (VInt32 (to_int32 i))
    | (_, Some _) => inr (ErrCannotConvert val "int32")
    end
  else if String.eqb format "int64" || String.eqb format "" then
    match ParseInt val 10 64 with
    | (i, None) => inl (VInt64 i)
    | (_, Some _) => inr (ErrCannotConvert val "int64")
    end
  else inr (ErrUnknownFormat format "integer").

Definition convertNumber (val format : string) : Value + Error :=
  if String.eqb format "float" then
    match ParseFloat val 32 with
    | Some f => inl (VFloat32 (float32_of f))
    | None => inr (ErrCannotConvert val "float")
    end
  else if String.eqb format "double" || String.eqb format "" then
    match ParseFloat val 64 with
    | Some f => inl (VFloat64 f)
    | None => inr (ErrCannotConvert val "double")
    end
  else inr (ErrUnknownFormat format "integer").

Definition convertBoolean (val : string) : Value + Error :=
  inl (VBool (bool_decide (ToLower val ∈ evaluatesAsTrue))).

Definition ConvertPrimitive (val typ format : string) : Value + Error :=
  if String.eqb typ "string" then convertString val format
  else if String.eqb typ "number" then convertNumber val format
  else if String.eqb typ "integer" then convertInteger val format
  else if String.eqb typ "boolean" then convertBoolean val
  else inr (ErrUnknownType typ).

Definition ConvertParameter (vals : list string) (typ format : string)
  : Value + Error :=
  if String.eqb typ "array" then inr (ErrNotImplemented typ)
  else if String.eqb typ "file" then inr (ErrNotImplemented typ)
  else
    match vals with
    | [v] => ConvertPrimitive v typ format
    | _ => inr (ErrValuesCount (length vals))
    end.

End Convert.


(** ** encoding/json: the scanner

    A transcription of the state machine of encoding/json/scanner.go
    (standard library, outside the package). Each [do_state...] function is
    the Go step function of the same name; [scanner_step] dispatches on the
    current step, as the call [s.step(s, c)] does. The parse stack keeps its
    top at the head of the list. *)

Module json.

Inductive Step :=
| stateBeginValueOrEmpty | stateBeginValue | stateBeginStringOrEmpty
| stateBeginString | stateEndValue | stateEndTop
| stateInString | stateInStringEsc | stateInStringEscU | stateInStringEscU1
| stateInStringEscU12 | stateInStringEscU123
| stateNeg | state1 | state0 | stateDot | stateDot0 | stateE | stateESign
| stateE0
| stateT | stateTr | stateTru | stateF | stateFa | stateFal | stateFals
| stateN | stateNu | stateNul
| stateError.

Inductive ParseState := parseObjectKey | parseObjectValue | parseArrayValue.

Inductive ScanCode :=
| scanContinue | scanBeginLiteral | scanBeginObject | scanObjectKey
| scanObjectValue | scanEndObject | scanBeginArray | scanArrayValue
| scanEndArray | scanSkipSpace | scanEnd | scanError.

Record scanner := {
  step : Step;
  endTop : bool;
  parseState : list ParseState
}.

Definition reset : scanner :=
  {| step := stateBeginValue; endTop := false; parseState := [] |}.

Definition maxNestingDepth : Z := 10000.

Definition eqc (c d : byte) : bool := Byte.eqb c d.
Definition quote : byte := x22.
Definition code (c : byte) : Z := Z.of_N (Byte.to_N c).
Definition between (lo c hi : byte) : bool :=
  (code lo <=? code c) && (code c <=? code hi).

Definition isSpace (c : byte) : bool :=
  eqc c " " || eqc c x09 || eqc c x0d || eqc c x0a.

Definition isDigit (c : byte) : bool := between "0" c "9".
Definition isDigit19 (c : byte) : bool := between "1" c "9".
Definition isHex (c : byte) : bool :=
  between "0" c "9" || between "a" c "f" || between "A" c "F".

Definition goto (s : scanner) (st : Step) : scanner :=
  {| step := st; endTop := endTop s; parseState := parseState s |}.

Definition error (s : scanner) : ScanCode * scanner :=
  (scanError, goto s stateError).

Definition pushParseState (s : scanner) (p : ParseState) (success : ScanCode)
  : ScanCode * scanner :=
  let s' := {| step := step s; endTop := endTop s;
               parseState := p :: parseState s |} in
  if Z.of_nat (length (parseState s')) <=? maxNestingDepth then (success, s')
  else error s'.

Definition popParseState (s : scanner) : scanner :=
  match tail (parseState s) with
  | [] => {| step := stateEndTop; endTop := true; parseState := [] |}
  | ps => {| step := stateEndValue; endTop := endTop s; parseState := ps |}
  end.

Definition setTop (s : scanner) (p : ParseState) : scanner :=
  {| step := step s; endTop := endTop s;
     parseState := p :: tail (parseState s) |}.

Definition do_stateEndTop (s : scanner) (c : byte) : ScanCode * scanner :=
  if negb (isSpace c) then (scanEnd, snd (error s)) else (scanEnd, s).

Definition do_stateEndValue (s : scanner) (c : byte) : ScanCode * scanner :=
  match parseState s with
  | [] =>
      do_stateEndTop
        {| step := stateEndTop; endTop := true; parseState := [] |} c
  | ps :: _ =>
      if isSpace c then (scanSkipSpace, goto s stateEndValue)
      else
        match ps with
        | parseObjectKey =>
            if eqc c ":" then
              (scanObjectKey, goto (setTop s parseObjectValue) stateBeginValue)
            else error s
        | parseObjectValue =>
            if eqc c "," then
              (scanObjectValue, goto (setTop s parseObjectKey) stateBeginString)
            else if eqc c "}" then (scanEndObject, popParseState s)
            else error s
        | parseArrayValue =>
            if eqc c "," then (scanArrayValue, goto s stateBeginValue)
            else if eqc c "]" then (scanEndArray, popParseState s)
            else error s
        end
  end.

Definition do_stateBeginValue (s : scanner) (c : byte) : ScanCode * scanner :=
  if isSpace c then (scanSkipSpace, s)
  else if eqc c "{" then
    pushParseState (goto s stateBeginStringOrEmpty) parseObjectKey scanBeginObject
  else if eqc c "[" then
    pushParseState (goto s stateBeginValueOrEmpty) parseArrayValue scanBeginArray
  else if eqc c quote then (scanBeginLiteral, goto s stateInString)
  else if eqc c "-" then (scanBeginLiteral, goto s stateNeg)
  else if eqc c "0" then (scanBeginLiteral, goto s state0)
  else if eqc c "t" then (scanBeginLiteral, goto s stateT)
  else if eqc c "f" then (scanBeginLiteral, goto s stateF)
  else if eqc c "n" then (scanBeginLiteral, goto s stateN)
  else if isDigit19 c then (scanBeginLiteral, goto s state1)
  else error s.

Definition do_stateBeginValueOrEmpty (s : scanner) (c : byte)
  : ScanCode * scanner :=
  if isSpace c then (scanSkipSpace, s)
  else if eqc c "]" then do_stateEndValue s c
  else do_stateBeginValue s c.

Definition do_stateBeginString (s : scanner) (c : byte) : ScanCode * scanner :=
  if isSpace c then (scanSkipSpace, s)
  else if eqc c quote then (scanBeginLiteral, goto s stateInString)
  else error s.

Definition do_stateBeginStringOrEmpty (s : scanner) (c : byte)
  : ScanCode * scanner :=
  if isSpace c then (scanSkipSpace, s)
  else if eqc c "}" then do_stateEndValue (setTop s parseObjectValue) c
  else do_stateBeginString s c.

Definition do_stateInString (s : scanner) (c : byte) : ScanCode * scanner :=
  if eqc c quote then (scanContinue, goto s stateEndValue)
  else if eqc c "\" then (scanContinue, goto s stateInStringEsc)
  else if code c <? 32 then error s
  else (scanContinue, s).

Definition do_stateInStringEsc (s : scanner) (c : byte) : ScanCode * scanner :=
  if eqc c "b" || eqc c "f" || eqc c "n" || eqc c "r" || eqc c "t" || eqc c "\"
     || eqc c "/" || eqc c quote
  then (scanContinue, goto s stateInString)
  else if eqc c "u" then (scanContinue, goto s stateInStringEscU)
  else error s.

Definition hex_then (next : Step) (s : scanner) (c : byte)
  : ScanCode * scanner :=
  if isHex c then (scanContinue, goto s next) else error s.

Definition do_state0 (s : scanner) (c : byte) : ScanCode * scanner :=
  if eqc c "." then (scanContinue, goto s stateDot)
  else if eqc c "e" || eqc c "E" then (scanContinue, goto s stateE)
  else do_stateEndValue s c.

Definition do_state1 (s : scanner) (c : byte) : ScanCode * scanner :=
  if isDigit c then (scanContinue, goto s state1) else do_state0 s c.

Definition do_stateNeg (s : scanner) (c : byte) : ScanCode * scanner :=
  if eqc c "0" then (scanContinue, goto s state0)
  else if isDigit19 c then (scanContinue, goto s state1)
  else error s.

Definition do_stateDot (s : scanner) (c : byte) : ScanCode * scanner :=
  if isDigit c then (scanContinue, goto s stateDot0) else error s.

Definition do_stateDot0 (s : scanner) (c : byte) : ScanCode * scanner :=
  if isDigit c then (scanContinue, s)
  else if eqc c "e" || eqc c "E" then (scanContinue, goto s stateE)
  else do_stateEndValue s c.

Definition do_stateESign (s : scanner) (c : byte) : ScanCode * scanner :=
  if isDigit c then (scanContinue, goto s stateE0) else error s.

Definition do_stateE (s : scanner) (c : byte) : ScanCode * scanner :=
  if eqc c "+" || eqc c "-" then (scanContinue, goto s stateESign)
  else do_stateESign s c.

Definition do_stateE0 (s : scanner) (c : byte) : ScanCode * scanner :=
  if isDigit c then (scanContinue, s) else do_stateEndValue s c.

(** The literal states: [expect ch next] is the shape shared by [stateT],
    [stateTr], ..., [stateNu]; [expect_last ch] the one of [stateTru],
    [stateFals] and [stateNul]. *)
Definition expect (ch : byte) (next : Step) (s : scanner) (c : byte)
  : ScanCode * scanner :=
  if eqc c ch then (scanContinue, goto s next) else error s.

Definition expect_last (ch : byte) (s : scanner) (c : byte)
  : ScanCode * scanner :=
  if eqc c ch then (scanContinue, goto s stateEndValue) else error s.

Definition scanner_step (s : scanner) (c : byte) : ScanCode * scanner :=
  match step s with
  | stateBeginValueOrEmpty => do_stateBeginValueOrEmpty s c
  | stateBeginValue => do_stateBeginValue s c
  | stateBeginStringOrEmpty => do_stateBeginStringOrEmpty s c
  | stateBeginString => do_stateBeginString s c
  | stateEndValue => do_stateEndValue s c
  | stateEndTop => do_stateEndTop s c
  | stateInString => do_stateInString s c
  | stateInStringEsc => do_stateInStringEsc s c
  | stateInStringEscU => hex_then stateInStringEscU1 s c
  | stateInStringEscU1 => hex_then stateInStringEscU12 s c
  | stateInStringEscU12 => hex_then stateInStringEscU123 s c
  | stateInStringEscU123 => hex_then stateInString s c
  | stateNeg => do_stateNeg s c
  | state1 => do_state1 s c
  | state0 => do_state0 s c
  | stateDot => do_stateDot s c
  | stateDot0 => do_stateDot0 s c
  | stateE => do_stateE s c
  | stateESign => do_stateESign s c
  | stateE0 => do_stateE0 s c
  | stateT => expect "r" stateTr s c
  | stateTr => expect "u" stateTru s c
  | stateTru => expect_last "e" s c
  | stateF => expect "a" stateFa s c
  | stateFa => expect "l" stateFal s c
  | stateFal => expect "s" stateFals s c
  | stateFals => expect_last "e" s c
  | stateN => expect "u" stateNu s c
  | stateNu => expect "l" stateNul s c
  | stateNul => expect_last "l" s c
  | stateError => (scanError, s)
  end.

Definition is_scanEnd (c : ScanCode) : bool :=
  match c with scanEnd => true | _ => false end.

Definition is_scanError (c : ScanCode) : bool :=
  match c with scanError => true | _ => false end.

(** [scanner.eof]. *)
Definition eof (s : scanner) : ScanCode :=
  match step s with
  | stateError => scanError
  | _ =>
      if endTop s then scanEnd
      else
        let s' := snd (scanner_step s " ") in
        if endTop s' then scanEnd else scanError
  end.

(** [checkValid]: the whole of [data] is one JSON value. *)
Fixpoint checkValid_loop (data : list byte) (s : scanner) : option scanner :=
  match data with
  | [] => Some s
  | c :: data' =>
      let '(r, s') := scanner_step s c in
      if is_scanError r then None else checkValid_loop data' s'
  end.

Definition checkValid (data : list byte) : bool :=
  match checkValid_loop data reset with
  | None => false
  | Some s => negb (is_scanError (eof s))
  end.

(** ** io.TeeReader and json.Decoder

    [TeeReader] is [io.TeeReader(r, w)] over an in-memory source: a [Read]
    of at most [n] bytes takes them from [src] and appends them to [sink].
    The source delivers as many bytes as are asked for and available; it
    reports [io.EOF] on a read that finds nothing left. *)

Record TeeReader := { src : list byte; sink : list byte }.

Definition TeeReader_Read (n : nat) (t : TeeReader)
  : list byte * bool * TeeReader :=
  let data := firstn n (src t) in
  (data, match src t with [] => true | _ => false end,
   {| src := skipn n (src t); sink := sink t ++ data |}).

(** The decoder of encoding/json/stream.go, for the one call
    [json.NewDecoder(tr).Decode(&body)] the package makes: [buf] starts
    empty and [scanp] at 0. [cap] is the capacity of [buf]. *)
Record Decoder := {
  r : TeeReader;
  buf : list byte;
  cap : nat;
  scan : scanner
}.

Definition NewDecoder (t : TeeReader) : Decoder :=
  {| r := t; buf := []; cap := 0%nat; scan := reset |}.

Definition minRead : nat := 512.

(** [Decoder.refill]; the boolean is [err == io.EOF]. *)
Definition refill (d : Decoder) : bool * Decoder :=
  let cap' :=
    if (cap d - length (buf d) <? minRead)%nat
    then (2 * cap d + minRead)%nat else cap d in
  let '(data, eof_seen, r') := TeeReader_Read (cap' - length (buf d)) (r d) in
  (eof_seen, {| r := r'; buf := buf d ++ data; cap := cap'; scan := scan d |}).

(** The inner [for ; scanp < len(dec.buf); scanp++] loop of
    [Decoder.readValue], run on the unscanned part of the buffer. *)
Inductive Scanned :=
| Found (n : nat) (s : scanner)
| Invalid (s : scanner)
| NeedMore (scanp : nat) (s : scanner).

Fixpoint scan_buffered (s : scanner) (scanp : nat) (unscanned : list byte)
  : Scanned :=
  match unscanned with
  | [] => NeedMore scanp s
  | c :: rest =>
      let '(code, s') := scanner_step s c in
      match code with
      | scanEnd => Found scanp s'
      | scanEndObject | scanEndArray =>
          let '(code', s'') := do_stateEndValue s' " " in
          if is_scanEnd code' then Found (S scanp) s''
          else scan_buffered s'' (S scanp) rest
      | scanError => Invalid s'
      | _ => scan_buffered s' (S scanp) rest
      end
  end.

Inductive DecodeError := SyntaxError | EOF | ErrUnexpectedEOF | OutOfFuel.

Definition nonSpace (b : list byte) : bool :=
  existsb (fun c => negb (isSpace c)) b.

(** [Decoder.readValue]: the length of the first value in the stream, or
    the error. [eof_seen] is the delayed [err] of the last [refill]. One
    round of the outer loop consumes one unit of [fuel]. *)
Fixpoint readValue (fuel : nat) (d : Decoder) (scanp : nat) (eof_seen : bool)
  : (nat + DecodeError) * Decoder :=
  match fuel with
  | O => (inr OutOfFuel, d)
  | S fuel' =>
      match scan_buffered (scan d) scanp (skipn scanp (buf d)) with
      | Found n s =>
          (inl n, {| r := r d; buf := buf d; cap := cap d; scan := s |})
      | Invalid s =>
          (inr SyntaxError,
           {| r := r d; buf := buf d; cap := cap d; scan := s |})
      | NeedMore scanp' s =>
          let d' := {| r := r d; buf := buf d; cap := cap d; scan := s |} in
          if eof_seen then
            let '(code, s') := scanner_step s " " in
            if is_scanEnd code
            then (inl scanp',
                  {| r := r d; buf := buf d; cap := cap d; scan := s' |})
            else if nonSpace (buf d) then (inr ErrUnexpectedEOF, d')
            else (inr EOF, d')
          else
            let '(eof_seen', d'') := refill d' in
            readValue fuel' d'' scanp' eof_seen'
      end
  end.

(** A JSON document: the text of one syntactically valid JSON value. It
    stands for the Go value ([interface{}]) that encoding/json builds from
    that text, which the text determines. *)
Definition Doc := list byte.

(** [Decoder.Decode] into an [interface{}]: the decoded document, or the
    error, and the decoder afterwards. The fuel is enough for every stream
    (see [readValue_fuel]). *)
Definition Decode (d : Decoder) : (Doc + DecodeError) * Decoder :=
  match readValue (length (src (r d)) + 2) d 0 false with
  | (inl n, d') => (inl (firstn n (buf d')), d')
  | (inr e, d') => (inr e, d')
  end.

(** [json.Unmarshal] into an [interface{}]. *)
Definition Unmarshal (data : list byte) : option Doc :=
  if checkValid data then Some data else None.

End json.


(** ** net/http and the contract model

    The parts of net/http, context and go-openapi/spec that the middleware
    touches. *)

Section HTTP.
Context `{rt : GoRuntime}.

(** [spec.Schema] is opaque to the package: it is only handed to the schema
    validator. *)
Context {Schema : Type}.

(** [spec.Parameter]. *)
Record Param := {
  ParamName : string;
  ParamIn : string;
  ParamType : string;
  ParamFormat : string;
  ParamRequired : bool;
  ParamSchema : option Schema
}.

Record Response := { ResponseSchema : option Schema }.

(** [spec.Operation]; [Params] is its [Parameters] field. *)
Record Operation := {
  ID : string;
  Params : list Param;
  StatusCodeResponses : gmap Z Response
}.

(** Request-scoped metadata: a [context.Context] is the chain of
    [context.WithValue] derivations, newest first. The two key types of the
    package never collide. *)
Inductive ctxKey :=
| contextKeyPathParam (name : string)
| contextKeyOperation.

Inductive ctxVal :=
| PathParamValue (v : Value)
| OperationValue (op : Operation).

Definition Context := list (ctxKey * ctxVal).

Definition ctxKey_eqb (a b : ctxKey) : bool :=
  match a, b with
  | contextKeyPathParam x, contextKeyPathParam y => String.eqb x y
  | contextKeyOperation, contextKeyOperation => true
  | _, _ => false
  end.

Definition WithValue (parent : Context) (k : ctxKey) (v : ctxVal) : Context :=
  (k, v) :: parent.

Fixpoint ctx_Value (c : Context) (k : ctxKey) : option ctxVal :=
  match c with
  | [] => None
  | (k', v) :: parent => if ctxKey_eqb k' k then Some v else ctx_Value parent k
  end.

(** [req.Body]: the sentinel [http.NoBody], or any other reader, with the
    bytes it will deliver. *)
Inductive RequestBody :=
| NoBody
| BodyReader (data : list byte).

(** What reading [req.Body] to the end yields. *)
Definition body_bytes (b : RequestBody) : list byte :=
  match b with
  | NoBody => []
  | BodyReader data => data
  end.

Record Request := {
  URLQuery : gmap string (list string);
  Body : RequestBody;
  Ctx : Context
}.

Definition WithContext (req : Request) (c : Context) : Request :=
  {| URLQuery := URLQuery req; Body := Body req; Ctx := c |}.

Definition withBody (req : Request) (b : RequestBody) : Request :=
  {| URLQuery := URLQuery req; Body := b; Ctx := Ctx req |}.

(** An [http.ResponseWriter] is the connection to the client or a response
    recorder wrapped around another writer. *)
Inductive ResponseWriter :=
| ClientWriter
| RecorderWriter (id : nat) (under : ResponseWriter).

(** What the client has received: the status line, once sent, and the body
    bytes so far. *)
Record Sink := { sent_status : option Z; sent_body : list byte }.

Record Recorder := { rec_status : Z; rec_payload : list byte }.

(** Calls observed by the probes below. *)
Inductive Event :=
| CallNext (w : ResponseWriter) (req : Request)
| CallErrHandler (w : ResponseWriter) (errs : list Error)
| Entered (name : string) (seen : option string).

Record World := {
  client : Sink;
  recorders : gmap nat Recorder;
  journal : list Event
}.

Definition Handler := ResponseWriter -> Request -> World -> World.
Definition ErrHandler := ResponseWriter -> list Error -> World -> World.

(** [MiddlewareFn] and the [Middleware] interface of middleware.go. *)
Definition MiddlewareFn := Handler -> Handler.

Class Middleware (M : Type) := Apply : M -> Handler -> Handler.

(** *** Writing a response

    net/http: the first [WriteHeader] fixes the status, later ones are
    ignored; a [Write] before any [WriteHeader] sends status 200 first. *)

Definition StatusOK : Z := 200.

Definition Sink_WriteHeader (code : Z) (k : Sink) : Sink :=
  match sent_status k with
  | Some _ => k
  | None => {| sent_status := Some code; sent_body := sent_body k |}
  end.

Definition Sink_Write (data : list byte) (k : Sink) : Sink :=
  let k' := Sink_WriteHeader StatusOK k in
  {| sent_status := sent_status k'; sent_body := sent_body k' ++ data |}.

Definition set_client (k : Sink) (σ : World) : World :=
  {| client := k; recorders := recorders σ; journal := journal σ |}.

Definition set_recorders (rs : gmap nat Recorder) (σ : World) : World :=
  {| client := client σ; recorders := rs; journal := journal σ |}.

Definition record (e : Event) (σ : World) : World :=
  {| client := client σ; recorders := recorders σ;
     journal := journal σ ++ [e] |}.

(** Modelled from the spec: the response recorder ([NewResponseRecorder],
    [Status], [Payload] and its writer methods are not in these files). It
    "wraps the response sink to capture final status and full payload while
    passing all writes through unchanged". The status is 200 until a header
    is written through the recorder. *)
Definition NewResponseRecorder (w : ResponseWriter) (σ : World)
  : ResponseWriter * nat * World :=
  let id := fresh (dom (recorders σ)) in
  (RecorderWriter id w, id,
   set_recorders
     (<[id := {| rec_status := StatusOK; rec_payload := [] |}]> (recorders σ))
     σ).

Definition Recorder_WriteHeader (code : Z) (rc : Recorder) : Recorder :=
  {| rec_status := code; rec_payload := rec_payload rc |}.

Definition Recorder_Write (data : list byte) (rc : Recorder) : Recorder :=
  {| rec_status := rec_status rc; rec_payload := rec_payload rc ++ data |}.

Definition Status (id : nat) (σ : World) : Z :=
  match recorders σ !! id with
  | Some rc => rec_status rc
  | None => StatusOK
  end.

Definition Payload (id : nat) (σ : World) : list byte :=
  match recorders σ !! id with
  | Some rc => rec_payload rc
  | None => []
  end.

Fixpoint WriteHeader (w : ResponseWriter) (code : Z) (σ : World) : World :=
  match w with
  | ClientWriter => set_client (Sink_WriteHeader code (client σ)) σ
  | RecorderWriter id under =>
      WriteHeader under code
        (set_recorders (alter (Recorder_WriteHeader code) id (recorders σ)) σ)
  end.

Fixpoint Write (w : ResponseWriter) (data : list byte) (σ : World) : World :=
  match w with
  | ClientWriter => set_client (Sink_Write data (client σ)) σ
  | RecorderWriter id under =>
      Write under data
        (set_recorders (alter (Recorder_Write data) id (recorders σ)) σ)
  end.

(** Handlers that only talk to their response writer: a script of writes. *)
Inductive WriterOp :=
| OpWriteHeader (code : Z)
| OpWrite (data : list byte).

Definition run_op (w : ResponseWriter) (σ : World) (op : WriterOp) : World :=
  match op with
  | OpWriteHeader code => WriteHeader w code σ
  | OpWrite data => Write w data σ
  end.

Definition run_script (ops : list WriterOp) (w : ResponseWriter) (σ : World)
  : World :=
  fold_left (run_op w) ops σ.

Definition Sink_op (k : Sink) (op : WriterOp) : Sink :=
  match op with
  | OpWriteHeader code => Sink_WriteHeader code k
  | OpWrite data => Sink_Write data k
  end.

Definition script_handler (ops : list WriterOp) : Handler :=
  fun w _ σ => run_script ops w σ.

Definition script_errHandler (ops : list Error -> list WriterOp) : ErrHandler :=
  fun w errs σ => run_script (ops errs) w σ.

(** Probes: a downstream handler and an error handler that only note that
    they were called, and with what. *)
Definition probe_next : Handler := fun w req σ => record (CallNext w req) σ.

Definition probe_errHandler : ErrHandler :=
  fun w errs σ => record (CallErrHandler w errs) σ.

(** *** The matched operation

    Modelled from the spec: [GetOperation] and [operationIDMiddleware] are
    not in these files. The operation-identity stamp stores the matched
    operation in the request metadata, by derivation, and calls the wrapped
    handler; [GetOperation] reads it back, [nil] when there is none. *)
Definition GetOperation (req : Request) : option Operation :=
  match ctx_Value (Ctx req) contextKeyOperation with
  | Some (OperationValue op) => Some op
  | _ => None
  end.

Definition operationIDMiddleware (next : Handler) (op : Operation) : Handler :=
  fun w req σ =>
    next w (WithContext req (WithValue (Ctx req) contextKeyOperation
                                       (OperationValue op))) σ.

(** *** The validators

    [ValidateQuery], [ValidateBody] and [ValidateBySchema] are defined
    outside these files; the middleware only looks at the list they
    return. *)
Variable ValidateQuery : list Param -> gmap string (list string) -> list Error.
Variable ValidateBody : list Param -> json.Doc -> list Error.
Variable ValidateBySchema : Schema -> json.Doc -> list Error.

(** ** middleware.go *)

Record queryValidatorMiddleware := {
  qv_errHandler : ErrHandler;
  continueOnError : bool
}.

Definition NewQueryValidator (errHandler : ErrHandler)
  : queryValidatorMiddleware :=
  {| qv_errHandler := errHandler; continueOnError := false |}.

Definition queryValidatorMiddleware_Apply (m : queryValidatorMiddleware)
  (next : Handler) : Handler :=
  fun w req σ =>
    match GetOperation req with
    | None => next w req σ
    | Some op =>
        let errs := ValidateQuery (Params op) (URLQuery req) in
        if (0 <? length errs)%nat then
          let σ' := qv_errHandler m w errs σ in
          if negb (continueOnError m) then σ' else next w req σ'
        else next w req σ
    end.

#[export] Instance queryValidator_Middleware
  : Middleware queryValidatorMiddleware := queryValidatorMiddleware_Apply.

Record bodyValidatorMiddleware := { bv_errHandler : ErrHandler }.

Definition NewBodyValidator (errHandler : ErrHandler)
  : bodyValidatorMiddleware :=
  {| bv_errHandler := errHandler |}.

Definition bodyValidatorMiddleware_Apply (m : bodyValidatorMiddleware)
  (next : Handler) : Handler :=
  fun w req σ =>
    match Body req with
    | NoBody => next w req σ
    | BodyReader data =>
        match GetOperation req with
        | None => next w req σ
        | Some op =>
            let tr := {| json.src := data; json.sink := [] |} in
            let '(res, dec) := json.Decode (json.NewDecoder tr) in
            let b := json.sink (json.r dec) in
            match res with
            | inr _ => bv_errHandler m w [ErrInvalidJSON] σ
            | inl body =>
                let errs := ValidateBody (Params op) body in
                if (0 <? length errs)%nat then bv_errHandler m w errs σ
                else next w (withBody req (BodyReader b)) σ
            end
        end
    end.

#[export] Instance bodyValidator_Middleware
  : Middleware bodyValidatorMiddleware := bodyValidatorMiddleware_Apply.

Record pathParameterExtractor := {
  extractor : Request -> string -> string
}.

Definition NewPathParameterExtractor
  (extractor : Request -> string -> string) : pathParameterExtractor :=
  {| extractor := extractor |}.

(** One round of the [for _, p := range op.Parameters] loop. *)
Definition extract_one (m : pathParameterExtractor) (req : Request)
  (p : Param) : Request :=
  if negb (String.eqb (ParamIn p) "path") then req
  else
    match ConvertPrimitive (extractor m req (ParamName p))
                           (ParamType p) (ParamFormat p) with
    | inl value =>
        WithContext req
          (WithValue (Ctx req) (contextKeyPathParam (ParamName p))
                     (PathParamValue value))
    | inr _ => req
    end.

Definition extract_all (m : pathParameterExtractor) (ps : list Param)
  (req : Request) : Request :=
  fold_left (extract_one m) ps req.

Definition pathParameterExtractor_Apply (m : pathParameterExtractor)
  (next : Handler) : Handler :=
  fun w req σ =>
    match GetOperation req with
    | None => next w req σ
    | Some op => next w (extract_all m (Params op) req) σ
    end.

#[export] Instance pathParameterExtractor_Middleware
  : Middleware pathParameterExtractor := pathParameterExtractor_Apply.

Definition GetPathParam (req : Request) (name : string) : option Value :=
  match ctx_Value (Ctx req) (contextKeyPathParam name) with
  | Some (PathParamValue v) => Some v
  | _ => None
  end.

Record responseBodyValidator := { rv_errHandler : ErrHandler }.

Definition NewResponseBodyValidator (errHandler : ErrHandler)
  : responseBodyValidator :=
  {| rv_errHandler := errHandler |}.

Definition responseBodyValidator_Apply (m : responseBodyValidator)
  (next : Handler) : Handler :=
  fun w req σ =>
    match GetOperation req with
    | None => next w req σ
    | Some op =>
        let '(rr, id, σ1) := NewResponseRecorder w σ in
        let σ2 := next rr req σ1 in
        match StatusCodeResponses op !! Status id σ2 with
        | None => σ2
        | Some responseSpec =>
            match ResponseSchema responseSpec with
            | None => σ2
            | Some schema =>
                match json.Unmarshal (Payload id σ2) with
                | None => σ2
                | Some body =>
                    let errs := ValidateBySchema schema body in
                    if (0 <? length errs)%nat then rv_errHandler m w errs σ2
                    else σ2
                end
            end
        end
    end.

#[export] Instance responseBodyValidator_Middleware
  : Middleware responseBodyValidator := responseBodyValidator_Apply.

(** What the response validator finds for a recorded status and payload:
    the chain of lookups and checks of [responseBodyValidator.Apply] after
    the wrapped handler has returned, with no violations where it returns
    early. *)
Definition response_violations (op : Operation) (status : Z)
  (payload : list byte) : list Error :=
  match StatusCodeResponses op !! status with
  | None => []
  | Some responseSpec =>
      match ResponseSchema responseSpec with
      | None => []
      | Some schema =>
          match json.Unmarshal payload with
          | None => []
          | Some body => ValidateBySchema schema body
          end
      end
  end.

(** What a recorder holds after a script of writes went through it. *)
Definition Recorder_op (rc : Recorder) (op : WriterOp) : Recorder :=
  match op with
  | OpWriteHeader code => Recorder_WriteHeader code rc
  | OpWrite data => Recorder_Write data rc
  end.

Definition recorded (ops : list WriterOp) : Recorder :=
  fold_left Recorder_op ops {| rec_status := StatusOK; rec_payload := [] |}.

(** The recorders a writer goes through. *)
Fixpoint writer_ids (w : ResponseWriter) : gset nat :=
  match w with
  | ClientWriter => ∅
  | RecorderWriter id under => {[id]} ∪ writer_ids under
  end.

(** ** The router

    A [BaseRouter] is an interface value: a reference to a routing engine.
    The model keeps, for every engine, the calls made on it. Two variables
    holding the same interface value denote the same engine. *)

Inductive HTTPHandler :=
| HandlerFunc (h : Handler)
| RouterHandler (r : nat).

Inductive RouterCall :=
| Route (method pathPattern : string) (handler : Handler)
| Mount (path : string) (handler : HTTPHandler).

Inductive Logger :=
| DiscardLogger
| UserLogger (id : nat).

Inductive LogLevel := WarnLevel | DebugLevel.

Record BuildState := {
  routers : gmap nat (list RouterCall);
  logged : list (nat * LogLevel * string)
}.

Definition BaseRouter_call (r : nat) (c : RouterCall) (st : BuildState)
  : BuildState :=
  {| routers := <[r := (default [] (routers st !! r) ++ [c])%list]> (routers st);
     logged := logged st |}.

Definition calls_on (r : nat) (st : BuildState) : list RouterCall :=
  default [] (routers st !! r).

(** The default logger discards what it is given. *)
Definition logf (l : Logger) (lvl : LogLevel) (msg : string) (st : BuildState)
  : BuildState :=
  match l with
  | DiscardLogger => st
  | UserLogger id =>
      {| routers := routers st; logged := logged st ++ [(id, lvl, msg)] |}
  end.

(** Modelled from the spec: [defaultBaseRouter] is not in these files; it
    yields the "default routing engine", a new engine with nothing
    registered. *)
Definition defaultBaseRouter (st : BuildState) : nat * BuildState :=
  let r := fresh (dom (routers st)) in
  (r, {| routers := <[r := []]> (routers st); logged := logged st |}).

Record RouterOptions := {
  logger : Logger;
  baseRouter : nat;
  mws : list MiddlewareFn
}.

Definition RouterOption := RouterOptions -> RouterOptions.

Definition LoggerOpt (l : Logger) : RouterOption :=
  fun args =>
    {| logger := l; baseRouter := baseRouter args; mws := mws args |}.

Definition BaseRouterOpt (br : nat) : RouterOption :=
  fun args => {| logger := logger args; baseRouter := br; mws := mws args |}.

Definition MiddlewareOpt (mw : MiddlewareFn) : RouterOption :=
  fun args =>
    {| logger := logger args; baseRouter := baseRouter args;
       mws := mws args ++ [mw] |}.

(** The contract: its base path and the view [analysis.New(sw).Operations()]
    gives of it, method by method and path by path, in the order the two
    [range] loops happen to visit it. *)
Record Swagger := {
  BasePath : string;
  Operations : list (string * list (string * Operation))
}.

(** [OperationHandlers]: operation id to handler. *)
Local Abbreviation OperationHandlers := (gmap string Handler).

(** The body of the inner loop of [NewRouter], for one operation. *)
Definition route_operation (opts : RouterOptions) (handlers : OperationHandlers)
  (subrouter : nat) (method : string) (st : BuildState)
  (pathOp : string * Operation) : BuildState :=
  let '(path, op) := pathOp in
  match handlers !! ID op with
  | None =>
      logf (logger opts) WarnLevel
        ("oas2 router: no handler registered for operation " +:+ ID op) st
  | Some handler =>
      let handler := fold_left (fun h mwf => mwf h) (mws opts) handler in
      let st := logf (logger opts) DebugLevel
                  ("oas2 router: handle: " +:+ method +:+ " " +:+ path) st in
      let handler := operationIDMiddleware handler op in
      BaseRouter_call subrouter (Route method path handler) st
  end.

Definition route_method (opts : RouterOptions) (handlers : OperationHandlers)
  (subrouter : nat) (st : BuildState)
  (methodOps : string * list (string * Operation)) : BuildState :=
  let '(method, pathOps) := methodOps in
  fold_left (route_operation opts handlers subrouter method) pathOps st.

(** The default options of [NewRouter] and the loop that applies the
    argument options to them. *)
Definition default_options (br : nat) : RouterOptions :=
  {| logger := DiscardLogger; baseRouter := br; mws := [] |}.

Definition apply_options (options : list RouterOption) (opts : RouterOptions)
  : RouterOptions :=
  fold_left (fun opts o => o opts) options opts.

Definition NewRouter (sw : Swagger) (handlers : OperationHandlers)
  (options : list RouterOption) (st : BuildState)
  : nat * option Error * BuildState :=
  let '(br, st) := defaultBaseRouter st in
  let opts := default_options br in
  let opts := apply_options options opts in
  let subrouter := baseRouter opts in
  let st :=
    fold_left (route_method opts handlers subrouter) (Operations sw) st in
  let router := baseRouter opts in
  let st :=
    BaseRouter_call router (Mount (BasePath sw) (RouterHandler subrouter)) st in
  (router, None, st).

(** A custom middleware that notes its name and the operation it can read
    from the request, then calls the handler it wraps; and a handler that
    does the same and stops. *)
Definition seen_operation (req : Request) : option string :=
  ID <$> GetOperation req.

Definition announce (name : string) : MiddlewareFn :=
  fun next w req σ => next w req (record (Entered name (seen_operation req)) σ).

Definition announce_handler (name : string) : Handler :=
  fun w req σ => record (Entered name (seen_operation req)) σ.

End HTTP.

Abbreviation OperationHandlers := (gmap string Handler).

(** [lookup_route] finds the handler an engine was given for a method and
    a path pattern (the last registration wins). *)
Fixpoint lookup_route `{rt : GoRuntime} {Schema : Type}
  (method pathPattern : string) (calls : list (RouterCall (Schema := Schema)))
  : option (Handler (Schema := Schema)) :=
  match calls with
  | [] => None
  | c :: calls' =>
      match lookup_route method pathPattern calls' with
      | Some h => Some h
      | None =>
          match c with
          | Route m p h =>
              if String.eqb m method && String.eqb p pathPattern
              then Some h else None
          | Mount _ _ => None
          end
      end
  end.

(** The routes [NewRouter] registers for a contract, in loop order. *)
Definition composed `{rt : GoRuntime} {Schema : Type}
  (mws : list (MiddlewareFn (Schema := Schema))) (h : Handler)
  (op : Operation) : Handler :=
  operationIDMiddleware (fold_left (fun h mwf => mwf h) mws h) op.

Definition routes_of_method `{rt : GoRuntime} {Schema : Type}
  (mws : list (MiddlewareFn (Schema := Schema)))
  (handlers : OperationHandlers)
  (methodOps : string * list (string * Operation (Schema := Schema)))
  : list RouterCall :=
  flat_map
    (fun pathOp : string * Operation =>
       match handlers !! ID (snd pathOp) with
       | None => []
       | Some h =>
           [Route (fst methodOps) (fst pathOp) (composed mws h (snd pathOp))]
       end)
    (snd methodOps).

Definition routes_of `{rt : GoRuntime} {Schema : Type}
  (mws : list (MiddlewareFn (Schema := Schema)))
  (handlers : OperationHandlers) (sw : Swagger (Schema := Schema))
  : list RouterCall :=
  flat_map (routes_of_method mws handlers) (Operations sw).

(** ** The conversion table of the specification (section 4.1)

    Written from the specification, to be compared with [ConvertPrimitive].
    A row gives, for a declared type and the formats it accepts, what the
    value is converted to. *)

Inductive Target :=
| Unchanged
| Signed (bits : Z)
| Floating (bits : Z).

Definition conversion_table : list (string * list string * Target) :=
  [ ("string", [""], Unchanged);
    ("integer", ["int32"], Signed 32);
    ("integer", [""; "int64"], Signed 64);
    ("number", ["float"], Floating 32);
    ("number", [""; "double"], Floating 64) ].

Definition table_types : list string :=
  ["string"; "integer"; "number"; "boolean"].

Definition mem (x : string) (l : list string) : bool :=
  existsb (String.eqb x) l.

Definition table_row (typ format : string) : option Target :=
  snd <$> find (fun row => String.eqb (fst (fst row)) typ
                          && mem format (snd (fst row)))
               conversion_table.

(** A decimal integer literal: an optional sign and at least one digit. *)
Definition is_decimal_digit (c : ascii) : bool :=
  (48 <=? byte_code c) && (byte_code c <=? 57).

Definition decimal_value (digits : list ascii) : Z :=
  fold_left (fun n c => n * 10 + (byte_code c - 48)) digits 0.

Definition unsigned_literal (s : string) : option Z :=
  match list_ascii_of_string s with
  | [] => None
  | digits =>
      if forallb is_decimal_digit digits then Some (decimal_value digits)
      else None
  end.

Definition decimal_literal (s : string) : option Z :=
  match s with
  | String c rest =>
      if Ascii.eqb c "+" then unsigned_literal rest
      else if Ascii.eqb c "-" then Z.opp <$> unsigned_literal rest
      else unsigned_literal s
  | "" => None
  end.

(** The value of [s] as a [bits]-bit signed integer, if it is one. *)
Definition parses_signed (bits : Z) (s : string) : option Z :=
  match decimal_literal s with
  | Some z =>
      if (- 2 ^ (bits - 1) <=? z) && (z <=? 2 ^ (bits - 1) - 1) then Some z
      else None
  | None => None
  end.

(** The loop of [decimal_value] from an arbitrary start, and the successful
    results of [ParseInt]. *)
Definition acc_digits (n : Z) (cs : list ascii) : Z :=
  fold_left (fun n c => n * 10 + (byte_code c - 48)) cs n.

Definition parse_ok (res : Z * option NumError) : option Z :=
  match res with
  | (z, None) => Some z
  | (_, Some _) => None
  end.

Definition truthy_words : list string :=
  ["true"; "1"; "yes"; "ok"; "y"; "on"; "selected"; "checked"; "t"; "enabled"].

(** Two strings are equal up to case when they lower-case to the same
    string. *)
Definition case_insensitive_member `{rt : GoRuntime} (val : string) : bool :=
  existsb (fun w => String.eqb (ToLower val) (ToLower w)) truthy_words.

(** Equality up to the case of ASCII letters, byte by byte. *)
Definition ascii_fold_eqb (a b : string) : bool :=
  String.eqb (map_string ascii_lower a) (map_string ascii_lower b).

Inductive ErrorKind :=
| UnsupportedFormat
| Unparsable
| UnknownType
| OtherError.

Definition classify (e : Error) : ErrorKind :=
  match e with
  | ErrUnknownFormat _ _ => UnsupportedFormat
  | ErrCannotConvert _ _ => Unparsable
  | ErrUnknownType _ => UnknownType
  | _ => OtherError
  end.

Definition kind_of `{rt : GoRuntime} (res : Value + Error) : Value + ErrorKind :=
  match res with
  | inl v => inl v
  | inr e => inr (classify e)
  end.

Definition table_convert `{rt : GoRuntime} (val typ format : string)
  : Value + ErrorKind :=
  if String.eqb typ "boolean" then inl (VBool (case_insensitive_member val))
  else if negb (mem typ table_types) then inr UnknownType
  else
    match table_row typ format with
    | None => inr UnsupportedFormat
    | Some Unchanged => inl (VString val)
    | Some (Signed bits) =>
        match parses_signed bits val with
        | Some z => inl (if bits =? 32 then VInt32 z else VInt64 z)
        | None => inr Unparsable
        end
    | Some (Floating bits) =>
        match ParseFloat val bits with
        | Some f => inl (if bits =? 32 then VFloat32 (float32_of f)
                         else VFloat64 f)
        | None => inr Unparsable
        end
    end.

(** ** Concrete inputs

    A runtime whose float parser rejects everything serves the evaluations
    below: none of them parses a float or lower-cases text that is not
    ASCII. The schema type has one schema. *)

Definition bytes_of (s : string) : list byte := list_byte_of_string s.

Definition plain_rt : GoRuntime :=
  {| float64 := unit; float32 := unit;
     ParseFloat := fun _ _ => None;
     float32_of := fun f => f;
     unicode_ToLower := fun s => s |}.

Module Sample.
#[local] Existing Instance plain_rt.

Definition Schema : Type := unit.

Definition accept_body : list (Param (Schema := Schema)) -> json.Doc -> list Error :=
  fun _ _ => [].

Definition accept_schema : Schema -> json.Doc -> list Error := fun _ _ => [].

Definition reject_schema : Schema -> json.Doc -> list Error :=
  fun _ _ => [ErrViolation "response does not match the schema"].

Definition reject_query
  : list (Param (Schema := Schema)) -> gmap string (list string) -> list Error :=
  fun _ _ => [ErrViolation "param limit is required"].

Definition accept_query
  : list (Param (Schema := Schema)) -> gmap string (list string) -> list Error :=
  fun _ _ => [].

Definition idParam : Param (Schema := Schema) :=
  {| ParamName := "id"; ParamIn := "path"; ParamType := "integer";
     ParamFormat := ""; ParamRequired := true; ParamSchema := None |}.

Definition getPet : Operation :=
  {| ID := "getPet"; Params := [idParam];
     StatusCodeResponses := {[ 200 := {| ResponseSchema := Some tt |} ]} |}.

Definition petstore : Swagger :=
  {| BasePath := "/v2"; Operations := [("GET", [("/pet/{id}", getPet)])] |}.

Definition world0 : World (Schema := Schema) :=
  {| client := {| sent_status := None; sent_body := [] |};
     recorders := ∅; journal := [] |}.

Definition build0 : BuildState (Schema := Schema) := {| routers := ∅; logged := [] |}.

Definition request (body : RequestBody) (c : Context (Schema := Schema))
  : Request :=
  {| URLQuery := ∅; Body := body; Ctx := c |}.

Definition matched (op : Operation) : Context (Schema := Schema) :=
  [(contextKeyOperation, OperationValue op)].

(** A body of 602 bytes: an empty JSON object and 600 spaces. *)
Definition padded_body : list byte :=
  (bytes_of "{}" ++ repeat (" "%byte) 600)%list.

Definition handlers : gmap string (Handler (Schema := Schema)) :=
  {[ "getPet" := announce_handler "H" ]}.

Definition entered_names (j : list (Event (Schema := Schema))) : list string :=
  flat_map (fun e => match e with Entered n _ => [n] | _ => [] end) j.

(** An error handler in the usual style: a status and a message. *)
Definition report : list Error -> list WriterOp :=
  fun _ => [OpWriteHeader 500; OpWrite (bytes_of "contract violated")].

End Sample.


(** ** Descriptions used by the further properties

    Declarative counterparts of what the router's loops compute, and the
    family of middleware the package provides. *)

Section Descriptions.
Context `{rt : GoRuntime} {Schema : Type}.
Variable ValidateQuery
  : list (Param (Schema := Schema)) -> gmap string (list string) -> list Error.
Variable ValidateBody : list (Param (Schema := Schema)) -> json.Doc -> list Error.
Variable ValidateBySchema : Schema -> json.Doc -> list Error.

(** The fields of [RouterOptions] are unexported: outside the package an
    option can only be built by [LoggerOpt], [BaseRouterOpt] or
    [MiddlewareOpt]. An [OptionSpec] names one such call. *)
Inductive OptionSpec :=
| SetLogger (l : Logger)
| SetBaseRouter (br : nat)
| AppendMiddleware (mw : MiddlewareFn (Schema := Schema)).

Definition to_option (o : OptionSpec) : RouterOption :=
  match o with
  | SetLogger l => LoggerOpt l
  | SetBaseRouter br => BaseRouterOpt br
  | AppendMiddleware mw => MiddlewareOpt mw
  end.

Definition loggers_given (os : list OptionSpec) : list Logger :=
  flat_map (fun o => match o with SetLogger l => [l] | _ => [] end) os.

Definition base_routers_given (os : list OptionSpec) : list nat :=
  flat_map (fun o => match o with SetBaseRouter br => [br] | _ => [] end) os.

Definition middleware_given (os : list OptionSpec) : list MiddlewareFn :=
  flat_map (fun o => match o with AppendMiddleware mw => [mw] | _ => [] end) os.

(** The operations of a contract, in loop order, each with its method and
    path. *)
Definition all_operations (sw : Swagger (Schema := Schema))
  : list (string * string * Operation) :=
  flat_map (fun methodOps : string * list (string * Operation) =>
              map (fun pathOp : string * Operation =>
                     (fst methodOps, fst pathOp, snd pathOp))
                  (snd methodOps))
           (Operations sw).

Definition is_unhandled (handlers : gmap string (Handler (Schema := Schema)))
  (entry : string * string * Operation (Schema := Schema)) : bool :=
  match handlers !! ID (snd entry) with
  | None => true
  | Some _ => false
  end.

Definition warning_for (id : nat)
  (entry : string * string * Operation (Schema := Schema))
  : nat * LogLevel * string :=
  (id, WarnLevel,
   "oas2 router: no handler registered for operation " +:+ ID (snd entry)).

Definition debug_for (id : nat)
  (entry : string * string * Operation (Schema := Schema))
  : nat * LogLevel * string :=
  (id, DebugLevel,
   "oas2 router: handle: " +:+ fst (fst entry) +:+ " " +:+ snd (fst entry)).

Definition is_warning (line : nat * LogLevel * string) : bool :=
  match snd (fst line) with
  | WarnLevel => true
  | DebugLevel => false
  end.

(** The middleware of middleware.go: what [Apply] gives for a value of one
    of the four middleware types. *)
Inductive package_middleware : MiddlewareFn (Schema := Schema) -> Prop :=
| package_query m :
    package_middleware (queryValidatorMiddleware_Apply ValidateQuery m)
| package_body m :
    package_middleware (bodyValidatorMiddleware_Apply ValidateBody m)
| package_path m :
    package_middleware (pathParameterExtractor_Apply m)
| package_response m :
    package_middleware (responseBodyValidator_Apply ValidateBySchema m).

(** A request carries metadata under a key. *)
Definition has_key (req : Request (Schema := Schema)) (k : ctxKey) : bool :=
  match ctx_Value (Ctx req) k with
  | Some _ => true
  | None => false
  end.

End Descriptions.

Module MoreSamples.
Import Sample.
#[local] Existing Instance plain_rt.

(** A second declaration of the path parameter [id], of a type that never
    converts. *)
Definition idFile : Param (Schema := Schema) :=
  {| ParamName := "id"; ParamIn := "path"; ParamType := "file";
     ParamFormat := ""; ParamRequired := true; ParamSchema := None |}.

Definition limitQuery : Param (Schema := Schema) :=
  {| ParamName := "limit"; ParamIn := "query"; ParamType := "integer";
     ParamFormat := "int32"; ParamRequired := false; ParamSchema := None |}.

Definition listPets : Operation :=
  {| ID := "listPets"; Params := [limitQuery];
     StatusCodeResponses := ∅ |}.

Definition store : Swagger :=
  {| BasePath := "/v2";
     Operations := [("GET", [("/pet/{id}", getPet); ("/pets", listPets)])] |}.

Definition blank_body : list byte := repeat (" "%byte) 700.

End MoreSamples.

(** * Properties *)

(** ** strconv.ParseInt against decimal literals *)

Lemma byte_code_range c : 0 <= byte_code c < 256.
Proof.
  unfold byte_code.
  pose proof (N_ascii_bounded c) as H. lia.
Qed.

Lemma digit_value_decimal c :
  is_decimal_digit c = true -> digit_value c = Some (byte_code c - 48).
Proof.
  unfold is_decimal_digit, digit_value. intros H. cbv zeta. now rewrite H.
Qed.

Lemma digit_value_other c :
  is_decimal_digit c = false ->
  match digit_value c with Some d => 10 <= d | None => True end.
Proof.
  unfold is_decimal_digit, digit_value. intros H. cbv zeta. rewrite H.
  destruct ((97 <=? strconv_lower (byte_code c))
            && (strconv_lower (byte_code c) <=? 122)) eqn:E; [|exact I].
  apply andb_true_iff in E as [E _]. lia.
Qed.

Lemma acc_digits_mono cs : forall n,
  0 <= n -> forallb is_decimal_digit cs = true -> n <= acc_digits n cs.
Proof.
  induction cs as [|c cs IH]; intros n Hn Hall; simpl in *; [lia|].
  apply andb_true_iff in Hall as [Hc Hall].
  unfold is_decimal_digit in Hc.
  etransitivity; [|apply IH; [lia|exact Hall]]. lia.
Qed.

Lemma ParseUint_loop_spec cs : forall n maxVal,
  0 <= n <= maxVal -> maxVal <= maxUint64 ->
  let res := ParseUint_loop cs 10 1844674407370955162 maxVal n in
  if forallb is_decimal_digit cs && (acc_digits n cs <=? maxVal)
  then res = (acc_digits n cs, None)
  else res = (0, Some ErrSyntax) \/ res = (maxVal, Some ErrRange).
Proof.
  unfold maxUint64.
  induction cs as [|c cs IH]; intros n maxVal Hn Hmax; cbn [ParseUint_loop forallb acc_digits fold_left].
  - cbn. destruct (Z.leb_spec n maxVal); [reflexivity|lia].
  - destruct (is_decimal_digit c) eqn:Hc.
    + rewrite (digit_value_decimal _ Hc).
      assert (0 <= byte_code c - 48 < 10) as Hd
        by (unfold is_decimal_digit in Hc; lia).
      destruct (Z.leb_spec 10 (byte_code c - 48)); [lia|].
      fold (acc_digits (n * 10 + (byte_code c - 48)) cs).
      destruct (Z.leb_spec 1844674407370955162 n) as [Hcut|Hcut].
      { destruct (forallb is_decimal_digit cs) eqn:Hall; cbn [andb]; [|now right].
        pose proof (acc_digits_mono cs (n * 10 + (byte_code c - 48)) ltac:(lia) Hall).
        destruct (Z.leb_spec (acc_digits (n * 10 + (byte_code c - 48)) cs) maxVal);
          [lia|now right]. }
      unfold wrap64.
      rewrite (Z.mod_small (n * 10)) by lia.
      destruct (Z.ltb_spec ((n * 10 + (byte_code c - 48)) mod 2 ^ 64) (n * 10))
        as [Hwrap|Hwrap]; cbn [orb].
      { destruct (forallb is_decimal_digit cs) eqn:Hall; cbn [andb]; [|now right].
        pose proof (acc_digits_mono cs (n * 10 + (byte_code c - 48)) ltac:(lia) Hall).
        assert (2 ^ 64 <= n * 10 + (byte_code c - 48)).
        { destruct (Z.lt_ge_cases (n * 10 + (byte_code c - 48)) (2 ^ 64)); [|lia].
          rewrite Z.mod_small in Hwrap by lia. lia. }
        destruct (Z.leb_spec (acc_digits (n * 10 + (byte_code c - 48)) cs) maxVal);
          [lia|now right]. }
      assert (n * 10 + (byte_code c - 48) < 2 ^ 64) as Hsmall.
      { destruct (Z.lt_ge_cases (n * 10 + (byte_code c - 48)) (2 ^ 64)); [lia|].
        assert ((n * 10 + (byte_code c - 48)) mod 2 ^ 64
                = n * 10 + (byte_code c - 48) - 2 ^ 64) as E.
        { symmetry. apply Z.mod_unique with (q := 1); lia. }
        lia. }
      rewrite Z.mod_small by lia.
      destruct (Z.ltb_spec maxVal (n * 10 + (byte_code c - 48))) as [Hbig|Hbig].
      { destruct (forallb is_decimal_digit cs) eqn:Hall; cbn [andb]; [|now right].
        pose proof (acc_digits_mono cs (n * 10 + (byte_code c - 48)) ltac:(lia) Hall).
        destruct (Z.leb_spec (acc_digits (n * 10 + (byte_code c - 48)) cs) maxVal);
          [lia|now right]. }
      cbn [andb]. apply IH; lia.
    + cbn [andb]. pose proof (digit_value_other _ Hc) as Hd.
      destruct (digit_value c) as [d|]; [|now left].
      destruct (Z.leb_spec 10 d); [now left|lia].
Qed.

Lemma unsigned_literal_nonneg s v : unsigned_literal s = Some v -> 0 <= v.
Proof.
  unfold unsigned_literal.
  destruct (list_ascii_of_string s) as [|c cs]; [discriminate|].
  destruct (forallb is_decimal_digit (c :: cs)) eqn:Hall; [|discriminate].
  intros [= <-]. now apply (acc_digits_mono (c :: cs) 0).
Qed.

Lemma ParseUint_spec s bits :
  bits = 32 \/ bits = 64 ->
  let res := ParseUint s 10 bits in
  match unsigned_literal s with
  | Some v =>
      if v <=? 2 ^ bits - 1 then res = (v, None)
      else res = (0, Some ErrSyntax) \/ res = (2 ^ bits - 1, Some ErrRange)
  | None => res = (0, Some ErrSyntax) \/ res = (2 ^ bits - 1, Some ErrRange)
  end.
Proof.
  intros Hbits. destruct s as [|c rest]; [now left|].
  unfold ParseUint, unsigned_literal.
  change (list_ascii_of_string (String c rest))
    with (c :: list_ascii_of_string rest).
  change (maxUint64 / 10 + 1) with 1844674407370955162.
  assert (wrap64 (wrap64 (Z.shiftl 1 bits) - 1) = 2 ^ bits - 1) as ->
    by (destruct Hbits; subst; reflexivity).
  pose proof (ParseUint_loop_spec (c :: list_ascii_of_string rest) 0
                (2 ^ bits - 1)) as H.
  cbv zeta in *.
  change (decimal_value (c :: list_ascii_of_string rest))
    with (acc_digits 0 (c :: list_ascii_of_string rest)).
  destruct (forallb is_decimal_digit (c :: list_ascii_of_string rest));
    cbn [andb] in H.
  - destruct (acc_digits 0 (c :: list_ascii_of_string rest) <=? 2 ^ bits - 1);
      apply H; destruct Hbits; subst; unfold maxUint64; lia.
  - apply H; destruct Hbits; subst; unfold maxUint64; lia.
Qed.

Lemma to_int64_small z : - 2 ^ 63 <= z < 2 ^ 63 -> to_int64 z = z.
Proof.
  intros H. unfold to_int64. rewrite Z.mod_small; lia.
Qed.

Lemma to_int64_min : to_int64 (2 ^ 63) = - 2 ^ 63.
Proof. reflexivity. Qed.

Lemma to_int32_small z : - 2 ^ 31 <= z < 2 ^ 31 -> to_int32 z = z.
Proof.
  intros H. unfold to_int32. rewrite Z.mod_small; lia.
Qed.

(** The signed tail of [ParseInt]: the range checks and the conversions,
    given what [ParseUint] returned. *)
Lemma ParseInt_tail bits (neg : bool) (lit : option Z)
  (res : Z * option NumError) :
  bits = 32 \/ bits = 64 ->
  (forall v, lit = Some v -> 0 <= v) ->
  match lit with
  | Some v =>
      if v <=? 2 ^ bits - 1 then res = (v, None)
      else res = (0, Some ErrSyntax) \/ res = (2 ^ bits - 1, Some ErrRange)
  | None => res = (0, Some ErrSyntax) \/ res = (2 ^ bits - 1, Some ErrRange)
  end ->
  parse_ok
    (let '(un, err) := res in
     match err with
     | Some ErrSyntax => (0, err)
     | _ =>
         let cutoff := Z.shiftl 1 (bits - 1) in
         if negb neg && (cutoff <=? un) then (cutoff - 1, Some ErrRange)
         else if neg && (cutoff <? un) then (- cutoff, Some ErrRange)
         else
           let n := to_int64 un in
           (if neg then to_int64 (- n) else n, None)
     end)
  = match (if neg then Z.opp <$> lit else lit) with
    | Some z =>
        if (- 2 ^ (bits - 1) <=? z) && (z <=? 2 ^ (bits - 1) - 1) then Some z
        else None
    | None => None
    end.
Proof.
  intros Hbits Hnn H.
  assert (Z.shiftl 1 (bits - 1) = 2 ^ (bits - 1)) as ->
    by (destruct Hbits; subst; reflexivity).
  assert (2 ^ bits = 2 * 2 ^ (bits - 1) /\ 2 ^ (bits - 1) <= 2 ^ 63
          /\ 2 <= 2 ^ (bits - 1)) as (Hp & Hle & Hge)
    by (destruct Hbits; subst; repeat split; reflexivity || discriminate).
  set (C := 2 ^ (bits - 1)) in *. rewrite Hp in H. clearbody C.
  assert (forall un, res = (un, Some ErrRange) -> un = 2 * C - 1 ->
          parse_ok
            (let '(un, err) := res in
             match err with
             | Some ErrSyntax => (0, err)
             | _ =>
                 if negb neg && (C <=? un) then (C - 1, Some ErrRange)
                 else if neg && (C <? un) then (- C, Some ErrRange)
                 else (if neg then to_int64 (- to_int64 un) else to_int64 un,
                       None)
             end) = None) as Hrange.
  { intros un -> ->. cbv zeta. cbn [parse_ok].
    destruct neg; cbn [negb andb].
    - destruct (Z.ltb_spec C (2 * C - 1)); [reflexivity|lia].
    - destruct (Z.leb_spec C (2 * C - 1)); [reflexivity|lia]. }
  cbv zeta in *.
  destruct lit as [v|].
  - specialize (Hnn v eq_refl).
    destruct (Z.leb_spec v (2 * C - 1)) as [Hv|Hv].
    + subst res. cbn [fmap option_fmap option_map].
      destruct neg; cbn [negb andb].
      * destruct (Z.ltb_spec C v) as [Hc|Hc]; cbn [parse_ok].
        { destruct (Z.leb_spec (- C) (- v)); [lia|reflexivity]. }
        destruct (Z.leb_spec (- C) (- v)); [|lia].
        destruct (Z.leb_spec (- v) (C - 1)); [|lia]. cbn [andb].
        f_equal.
        destruct (Z.eq_dec v (2 ^ 63)) as [->|Hne].
        { rewrite to_int64_min.
          replace (- - 2 ^ 63) with (2 ^ 63) by lia. apply to_int64_min. }
        rewrite (to_int64_small v) by lia. apply to_int64_small. lia.
      * destruct (Z.leb_spec C v) as [Hc|Hc]; cbn [parse_ok].
        { destruct (Z.leb_spec v (C - 1)); [lia|].
          now rewrite andb_false_r. }
        destruct (Z.leb_spec (- C) v); [|lia].
        destruct (Z.leb_spec v (C - 1)); [|lia]. cbn [andb].
        f_equal. apply to_int64_small. lia.
    + assert (match (if neg then Z.opp <$> Some v else Some v) with
              | Some z =>
                  if (- C <=? z) && (z <=? C - 1) then Some z else None
              | None => None
              end = None) as ->.
      { destruct neg; cbn [fmap option_fmap option_map].
        - destruct (Z.leb_spec (- C) (- v)); [lia|reflexivity].
        - destruct (Z.leb_spec v (C - 1)); [lia|]. now rewrite andb_false_r. }
      destruct H as [->| ->]; [reflexivity|]. now apply (Hrange (2 * C - 1)).
  - assert ((if neg then Z.opp <$> None else @None Z) = None) as ->
      by now destruct neg.
    destruct H as [->| ->]; [reflexivity|]. now apply (Hrange (2 * C - 1)).
Qed.

(** [ParseInt] in base 10 accepts exactly the decimal literals that fit the
    bit size, and returns their value. *)
Lemma ParseInt_spec s bits :
  bits = 32 \/ bits = 64 ->
  parse_ok (ParseInt s 10 bits) = parses_signed bits s.
Proof.
  intros Hbits. destruct s as [|c rest]; [reflexivity|].
  unfold ParseInt, parses_signed, decimal_literal.
  destruct (Ascii.eqb c "+") eqn:Hplus.
  - apply Ascii.eqb_eq in Hplus. subst c. cbn [Ascii.eqb Bool.eqb orb].
    apply (ParseInt_tail bits false (unsigned_literal rest)); auto.
    + apply unsigned_literal_nonneg.
    + apply ParseUint_spec, Hbits.
  - destruct (Ascii.eqb c "-") eqn:Hminus; cbn [orb].
    + rewrite <- (ParseInt_tail bits true (unsigned_literal rest)
                   (ParseUint rest 10 bits)); auto.
      * apply unsigned_literal_nonneg.
      * apply ParseUint_spec, Hbits.
    + apply (ParseInt_tail bits false (unsigned_literal (String c rest))); auto.
      * apply unsigned_literal_nonneg.
      * apply ParseUint_spec, Hbits.
Qed.

Lemma parses_signed_range bits s z :
  parses_signed bits s = Some z -> - 2 ^ (bits - 1) <= z <= 2 ^ (bits - 1) - 1.
Proof.
  unfold parses_signed. destruct (decimal_literal s) as [v|]; [|discriminate].
  destruct (Z.leb_spec (- 2 ^ (bits - 1)) v); [|discriminate].
  destruct (Z.leb_spec v (2 ^ (bits - 1) - 1)); [|discriminate].
  intros [= <-]. lia.
Qed.

(** ** convert.go *)

Section ConvertProperties.
Context `{rt : GoRuntime}.

Lemma ToLower_truthy_words :
  Forall (fun w => ToLower w = w) truthy_words.
Proof. repeat constructor. Qed.

Lemma evaluatesAsTrue_case_insensitive val :
  bool_decide (ToLower val ∈ evaluatesAsTrue) = case_insensitive_member val.
Proof.
  unfold case_insensitive_member, truthy_words. cbn [existsb].
  change (ToLower "true") with "true". change (ToLower "1") with "1".
  change (ToLower "yes") with "yes". change (ToLower "ok") with "ok".
  change (ToLower "y") with "y". change (ToLower "on") with "on".
  change (ToLower "selected") with "selected".
  change (ToLower "checked") with "checked".
  change (ToLower "t") with "t". change (ToLower "enabled") with "enabled".
  generalize (ToLower val) as x. intros x.
  apply Bool.eq_iff_eq_true.
  rewrite bool_decide_eq_true, !orb_true_iff, !String.eqb_eq.
  unfold evaluatesAsTrue. set_unfold. intuition discriminate.
Qed.

Lemma map_string_lower_id s :
  hasUpper s = false -> map_string ascii_lower s = s.
Proof.
  unfold hasUpper. induction s as [|c s IH]; cbn; [reflexivity|].
  intros H. apply orb_false_iff in H as [Hc Hs].
  unfold ascii_lower at 1. rewrite Hc. now rewrite IH.
Qed.

Lemma ToLower_ascii s : isASCII s = true -> ToLower s = map_string ascii_lower s.
Proof.
  intros H. unfold ToLower. rewrite H.
  destruct (hasUpper s) eqn:Hup; cbn; [reflexivity|].
  symmetry. now apply map_string_lower_id.
Qed.

(** On ASCII input, membership is membership up to the case of letters. *)
Lemma case_insensitive_member_ascii val :
  isASCII val = true ->
  case_insensitive_member val = existsb (ascii_fold_eqb val) truthy_words.
Proof.
  intros H. unfold case_insensitive_member, ascii_fold_eqb.
  rewrite (ToLower_ascii val H). reflexivity.
Qed.

Lemma convertInteger_table val format :
  kind_of (convertInteger val format) = table_convert val "integer" format.
Proof.
  unfold convertInteger, table_convert, table_row. cbn.
  destruct (String.eqb format "int32") eqn:E32.
  - apply String.eqb_eq in E32. subst format. cbn.
    pose proof (ParseInt_spec val 32 (or_introl eq_refl)) as H.
    destruct (ParseInt val 10 32) as [i [e|]]; cbn in H; rewrite <- H;
      [reflexivity|].
    symmetry in H. apply parses_signed_range in H.
    cbn. now rewrite to_int32_small by lia.
  - cbn.
    destruct (String.eqb format "int64") eqn:E64.
    + apply String.eqb_eq in E64. subst format. cbn.
      pose proof (ParseInt_spec val 64 (or_intror eq_refl)) as H.
      destruct (ParseInt val 10 64) as [i [e|]]; cbn in H; now rewrite <- H.
    + cbn.
      destruct (String.eqb format "") eqn:E0.
      * apply String.eqb_eq in E0. subst format. cbn.
        pose proof (ParseInt_spec val 64 (or_intror eq_refl)) as H.
        destruct (ParseInt val 10 64) as [i [e|]]; cbn in H; now rewrite <- H.
      * reflexivity.
Qed.

Lemma convertNumber_table val format :
  kind_of (convertNumber val format) = table_convert val "number" format.
Proof.
  unfold convertNumber, table_convert, table_row. cbn.
  destruct (String.eqb format "float") eqn:Ef.
  - apply String.eqb_eq in Ef. subst format. cbn.
    now destruct (ParseFloat val 32).
  - cbn. destruct (String.eqb format "double") eqn:Ed.
    + apply String.eqb_eq in Ed. subst format. cbn.
      now destruct (ParseFloat val 64).
    + cbn. destruct (String.eqb format "") eqn:E0.
      * apply String.eqb_eq in E0. subst format. cbn.
        now destruct (ParseFloat val 64).
      * reflexivity.
Qed.

Lemma convertString_table val format :
  kind_of (convertString val format) = table_convert val "string" format.
Proof.
  unfold convertString, table_convert, table_row. cbn.
  now destruct (String.eqb format "").
Qed.

(** C5. Single-value conversion follows the table of section 4.1 on every
    input: [ConvertPrimitive], with its errors reduced to their kind, equals
    [table_convert], the table written out from the specification (string
    with the empty format unchanged; integer parsed as a 32-bit or 64-bit
    signed decimal literal; number parsed as a 32-bit or 64-bit float;
    boolean true exactly for the case-insensitive members of the ten words
    and never an error; every other type an unknown-type error; every
    format outside the table an unsupported-format error). The integers it
    returns fit their width. Being a total function, it has a result on
    every input. *)
Theorem ConvertPrimitive_follows_table (val typ format : string) :
  kind_of (ConvertPrimitive val typ format) = table_convert val typ format
  /\ (forall z, ConvertPrimitive val typ format = inl (VInt32 z) ->
                - 2 ^ 31 <= z <= 2 ^ 31 - 1)
  /\ (forall z, ConvertPrimitive val typ format = inl (VInt64 z) ->
                - 2 ^ 63 <= z <= 2 ^ 63 - 1)
  /\ (forall b, ConvertPrimitive val "boolean" format = inl (VBool b) <->
                b = case_insensitive_member val).
Proof.
  assert (kind_of (ConvertPrimitive val typ format)
          = table_convert val typ format) as Htable.
  { unfold ConvertPrimitive.
    destruct (String.eqb typ "string") eqn:Es.
    { apply String.eqb_eq in Es. subst typ. apply convertString_table. }
    destruct (String.eqb typ "number") eqn:En.
    { apply String.eqb_eq in En. subst typ. apply convertNumber_table. }
    destruct (String.eqb typ "integer") eqn:Ei.
    { apply String.eqb_eq in Ei. subst typ. apply convertInteger_table. }
    destruct (String.eqb typ "boolean") eqn:Eb.
    { apply String.eqb_eq in Eb. subst typ. unfold table_convert, convertBoolean.
      cbn. now rewrite evaluatesAsTrue_case_insensitive. }
    unfold table_convert, table_types, mem. cbn [existsb].
    now rewrite Eb, Es, Ei, En. }
  split; [exact Htable|].
  assert (forall bits z,
            table_convert val typ format
            = inl (if bits =? 32 then VInt32 z else VInt64 z) ->
            bits = 32 \/ bits = 64 ->
            - 2 ^ (bits - 1) <= z <= 2 ^ (bits - 1) - 1) as Hrange.
  { intros bits z H Hbits. unfold table_convert in H.
    destruct (String.eqb typ "boolean");
      [destruct Hbits; subst; discriminate|].
    destruct (negb (mem typ table_types));
      [destruct Hbits; subst; discriminate|].
    destruct (table_row typ format) as [[| bits' | bits']|] eqn:Hrow;
      try (destruct Hbits; subst; discriminate).
    - assert (bits' = 32 \/ bits' = 64) as Hb'.
      { unfold table_row, conversion_table in Hrow. cbn in Hrow.
        repeat match type of Hrow with
               | context [if ?c then _ else _] => destruct c
               end; cbn in Hrow; inversion Hrow; auto. }
      destruct (parses_signed bits' val) as [z'|] eqn:Hp;
        [|destruct Hbits; subst; discriminate].
      apply parses_signed_range in Hp.
      destruct Hb', Hbits; subst; cbn in H; inversion H; subst; exact Hp.
    - destruct (ParseFloat val bits');
        destruct (bits' =? 32); destruct Hbits; subst; discriminate. }
  split; [|split].
  - intros z H. rewrite H in Htable. cbn in Htable.
    apply (Hrange 32 z); auto.
  - intros z H. rewrite H in Htable. cbn in Htable.
    apply (Hrange 64 z); auto.
  - intros b. unfold ConvertPrimitive, convertBoolean. cbn.
    rewrite evaluatesAsTrue_case_insensitive.
    split; [now intros [= <-]|now intros ->].
Qed.

(** C9. Multi-value conversion: types [array] and [file] give the
    not-implemented error whatever the values; every other type gives the
    arity error unless exactly one value is supplied, and with exactly one
    value the result of [ConvertPrimitive] on it. *)
Theorem ConvertParameter_cases (vals : list string) (typ format : string) :
  (typ = "array" \/ typ = "file" ->
   ConvertParameter vals typ format = inr (ErrNotImplemented typ))
  /\ (typ <> "array" -> typ <> "file" -> length vals <> 1%nat ->
      ConvertParameter vals typ format = inr (ErrValuesCount (length vals)))
  /\ (typ <> "array" -> typ <> "file" -> forall v, vals = [v] ->
      ConvertParameter vals typ format = ConvertPrimitive v typ format).
Proof.
  unfold ConvertParameter. repeat split.
  - intros [-> | ->]; reflexivity.
  - intros Ha Hf Hlen.
    apply String.eqb_neq in Ha, Hf. rewrite Ha, Hf.
    destruct vals as [|v [|v' vals]]; cbn in *; congruence.
  - intros Ha Hf v ->.
    apply String.eqb_neq in Ha, Hf. now rewrite Ha, Hf.
Qed.

End ConvertProperties.

(** ** json.Decoder: what goes through the tee *)

Lemma refill_tee d :
  let d' := snd (json.refill d) in
  (json.sink (json.r d') ++ json.src (json.r d')
   = json.sink (json.r d) ++ json.src (json.r d))%list.
Proof.
  unfold json.refill, json.TeeReader_Read. cbn.
  now rewrite <- app_assoc, firstn_skipn.
Qed.

Lemma readValue_tee fuel : forall d scanp eof_seen,
  let d' := snd (json.readValue fuel d scanp eof_seen) in
  (json.sink (json.r d') ++ json.src (json.r d')
   = json.sink (json.r d) ++ json.src (json.r d))%list.
Proof.
  induction fuel as [|fuel IH]; intros d scanp eof_seen;
    cbn -[json.refill json.scan_buffered json.scanner_step]; [reflexivity|].
  destruct (json.scan_buffered _ _ _) as [n s|s|scanp' s];
    cbn -[json.refill json.scanner_step]; [reflexivity|reflexivity|].
  destruct eof_seen.
  - destruct (json.scanner_step s _) as [code s'].
    destruct (json.is_scanEnd code); [reflexivity|].
    now destruct (json.nonSpace _).
  - destruct (json.refill _) as [eof_seen' d''] eqn:Hrefill.
    specialize (IH d'' scanp' eof_seen'). cbv zeta in IH. rewrite IH.
    pose proof (refill_tee
                  {| json.r := json.r d; json.buf := json.buf d;
                     json.cap := json.cap d; json.scan := s |}) as H.
    rewrite Hrefill in H. exact H.
Qed.

(** The bytes the tee has buffered when [Decode] returns are a prefix of the
    stream: what the decoder did not read is still in the source. *)
Lemma Decode_tee_prefix data :
  let d := snd (json.Decode
                  (json.NewDecoder {| json.src := data; json.sink := [] |})) in
  data = (json.sink (json.r d) ++ json.src (json.r d))%list.
Proof.
  unfold json.Decode.
  pose proof (readValue_tee (length data + 2)
                (json.NewDecoder {| json.src := data; json.sink := [] |})
                0 false) as H.
  cbn in *.
  destruct (json.readValue _ _ _ _) as [[n|e] d']; cbn in *; now rewrite H.
Qed.

(** [Decode] never gives up for lack of fuel. *)
Lemma readValue_fuel fuel : forall d scanp (eof_seen : bool),
  (length (json.buf d) <= json.cap d)%nat ->
  (length (json.src (json.r d)) + (if eof_seen then 1 else 2) <= fuel)%nat ->
  fst (json.readValue fuel d scanp eof_seen) <> inr json.OutOfFuel.
Proof.
  induction fuel as [|fuel IH]; intros d scanp eof_seen Hcap Hfuel.
  { destruct eof_seen; lia. }
  cbn -[json.refill json.scan_buffered json.scanner_step].
  destruct (json.scan_buffered _ _ _) as [n s|s|scanp' s];
    cbn -[json.refill json.scanner_step]; [discriminate|discriminate|].
  destruct eof_seen.
  - destruct (json.scanner_step s _) as [code s'].
    destruct (json.is_scanEnd code); [discriminate|].
    now destruct (json.nonSpace _).
  - unfold json.refill, json.TeeReader_Read. cbn -[Nat.ltb Nat.mul].
    set (cap' := if (json.cap d - length (json.buf d) <? json.minRead)%nat
                 then (2 * json.cap d + json.minRead)%nat else json.cap d).
    assert (1 <= cap' - length (json.buf d))%nat as Hroom.
    { subst cap'. unfold json.minRead.
      destruct (Nat.ltb_spec (json.cap d - length (json.buf d)) 512); lia. }
    apply IH; cbn.
    + rewrite length_app, length_firstn. lia.
    + rewrite length_skipn.
      destruct (json.src (json.r d)) as [|c rest]; cbn [length] in *; lia.
Qed.

Lemma Decode_total data :
  fst (json.Decode (json.NewDecoder {| json.src := data; json.sink := [] |}))
  <> inr json.OutOfFuel.
Proof.
  unfold json.Decode.
  pose proof (readValue_fuel (length data + 2)
                (json.NewDecoder {| json.src := data; json.sink := [] |})
                0 false) as H.
  cbn in *.
  destruct (json.readValue _ _ _ _) as [[n|e] d']; cbn in *;
    [discriminate|].
  intros [= ->]. apply H; [lia|lia|reflexivity].
Qed.



(** ** middleware.go *)

Section MiddlewareProperties.
Context `{rt : GoRuntime} {Schema : Type}.
Variable ValidateQuery
  : list (Param (Schema := Schema)) -> gmap string (list string) -> list Error.
Variable ValidateBody : list (Param (Schema := Schema)) -> json.Doc -> list Error.
Variable ValidateBySchema : Schema -> json.Doc -> list Error.

Lemma nonempty_length {A} (l : list A) : l <> [] -> (0 <? length l)%nat = true.
Proof. destruct l; [congruence|reflexivity]. Qed.

(** C7. With a matched operation, a non-empty list of query violations makes
    the query validator behave as one call of the error handler on the full
    list and nothing else, whatever the downstream handler is (the
    continue-on-error flag of [NewQueryValidator] is false): the probes see
    the error handler once and the downstream handler never. An empty list
    makes it behave as the downstream handler alone. *)
Theorem queryValidator_reports_or_continues
  (errHandler : ErrHandler) (next : Handler) w req σ op :
  GetOperation req = Some op ->
  continueOnError (NewQueryValidator errHandler) = false
  /\ (ValidateQuery (Params op) (URLQuery req) <> [] ->
      queryValidatorMiddleware_Apply ValidateQuery
        (NewQueryValidator errHandler) next w req σ
      = errHandler w (ValidateQuery (Params op) (URLQuery req)) σ
      /\ journal (queryValidatorMiddleware_Apply ValidateQuery
                    (NewQueryValidator probe_errHandler) probe_next w req σ)
         = (journal σ
            ++ [CallErrHandler w (ValidateQuery (Params op) (URLQuery req))])%list)
  /\ (ValidateQuery (Params op) (URLQuery req) = [] ->
      queryValidatorMiddleware_Apply ValidateQuery
        (NewQueryValidator errHandler) next w req σ
      = next w req σ
      /\ journal (queryValidatorMiddleware_Apply ValidateQuery
                    (NewQueryValidator probe_errHandler) probe_next w req σ)
         = (journal σ ++ [CallNext w req])%list).
Proof.
  intros Hop. unfold queryValidatorMiddleware_Apply. rewrite Hop.
  split; [reflexivity|]. split.
  - intros Hne. rewrite (nonempty_length _ Hne). cbn. split; reflexivity.
  - intros ->. cbn. split; reflexivity.
Qed.

(** C8, as the code has it. The body validator passes the request through
    unchanged, calling the downstream handler and never the error handler,
    whenever the request body is the [http.NoBody] sentinel or no operation
    is matched. *)
Theorem bodyValidator_pass_through
  (errHandler : ErrHandler) (next : Handler) w req σ :
  Body req = NoBody \/ GetOperation req = None ->
  bodyValidatorMiddleware_Apply ValidateBody (NewBodyValidator errHandler)
    next w req σ
  = next w req σ
  /\ journal (bodyValidatorMiddleware_Apply ValidateBody
                (NewBodyValidator probe_errHandler) probe_next w req σ)
     = (journal σ ++ [CallNext w req])%list.
Proof.
  unfold bodyValidatorMiddleware_Apply.
  intros [Hbody | Hop].
  - rewrite Hbody. split; reflexivity.
  - rewrite Hop. destruct (Body req); split; reflexivity.
Qed.

(** When the body validator lets a request through after validation, the
    body the downstream handler finds is what the decoder pulled through the
    tee: a prefix of what the client sent. *)
Lemma bodyValidator_replays_read_prefix
  (errHandler : ErrHandler) (next : Handler) w req σ op data :
  Body req = BodyReader data ->
  GetOperation req = Some op ->
  (exists errs,
     bodyValidatorMiddleware_Apply ValidateBody (NewBodyValidator errHandler)
       next w req σ
     = errHandler w errs σ /\ errs <> [])
  \/ (exists replayed unread,
        bodyValidatorMiddleware_Apply ValidateBody (NewBodyValidator errHandler)
          next w req σ
        = next w (withBody req (BodyReader replayed)) σ
        /\ data = (replayed ++ unread)%list).
Proof.
  intros Hbody Hop. unfold bodyValidatorMiddleware_Apply.
  rewrite Hbody, Hop.
  pose proof (Decode_tee_prefix data) as Hprefix. cbv zeta in Hprefix.
  destruct (json.Decode _) as [[body|e] dec]; cbn in *.
  - destruct (ValidateBody (Params op) body) as [|e errs] eqn:Herrs; cbn.
    + right. eauto.
    + left. eexists; split; [reflexivity|discriminate].
  - left. eexists; split; [reflexivity|discriminate].
Qed.


(** *** The path-parameter extractor *)

Lemma extract_one_frame (m : pathParameterExtractor (Schema := Schema)) req p :
  URLQuery (extract_one m req p) = URLQuery req
  /\ Body (extract_one m req p) = Body req
  /\ GetOperation (extract_one m req p) = GetOperation req.
Proof.
  unfold extract_one.
  destruct (negb _); [auto|].
  destruct (ConvertPrimitive _ _ _); auto.
Qed.

Lemma extract_all_cons (m : pathParameterExtractor (Schema := Schema)) p ps req :
  extract_all m (p :: ps) req = extract_all m ps (extract_one m req p).
Proof. reflexivity. Qed.

Lemma extract_all_frame (m : pathParameterExtractor (Schema := Schema)) ps :
  forall req,
  URLQuery (extract_all m ps req) = URLQuery req
  /\ Body (extract_all m ps req) = Body req
  /\ GetOperation (extract_all m ps req) = GetOperation req.
Proof.
  induction ps as [|p ps IH]; intros req; [cbn; auto|].
  rewrite extract_all_cons.
  destruct (IH (extract_one m req p)) as (-> & -> & ->).
  apply extract_one_frame.
Qed.

Lemma GetPathParam_WithValue (req : Request (Schema := Schema)) k v name :
  GetPathParam
    (WithContext req (WithValue (Ctx req) (contextKeyPathParam k)
                                (PathParamValue v))) name
  = if String.eqb k name then Some v else GetPathParam req name.
Proof.
  unfold GetPathParam. cbn. now destruct (String.eqb k name).
Qed.

Lemma extract_one_other (m : pathParameterExtractor (Schema := Schema)) req p name :
  ParamIn p <> "path" \/ ParamName p <> name ->
  GetPathParam (extract_one m req p) name = GetPathParam req name.
Proof.
  intros H. unfold extract_one.
  destruct (String.eqb (ParamIn p) "path") eqn:Hin; cbn; [|reflexivity].
  apply String.eqb_eq in Hin.
  destruct H as [H|H]; [congruence|].
  destruct (ConvertPrimitive _ _ _); [|reflexivity].
  rewrite GetPathParam_WithValue.
  apply String.eqb_neq in H. now rewrite H.
Qed.

Lemma extract_all_skips (m : pathParameterExtractor (Schema := Schema)) name ps :
  forall req,
  (forall p r, In p ps -> ParamIn p = "path" -> ParamName p = name ->
     exists e, ConvertPrimitive (extractor m r name) (ParamType p) (ParamFormat p)
               = inr e) ->
  GetPathParam (extract_all m ps req) name = GetPathParam req name.
Proof.
  induction ps as [|p ps IH]; intros req Hfail; [reflexivity|].
  rewrite extract_all_cons.
  rewrite IH by (intros q r Hq; apply Hfail; now right).
  destruct (String.eqb (ParamIn p) "path") eqn:Hin.
  - destruct (String.eqb (ParamName p) name) eqn:Hname.
    + apply String.eqb_eq in Hin, Hname.
      destruct (Hfail p req (or_introl eq_refl) Hin Hname) as [e He].
      unfold extract_one. rewrite Hin. cbn. rewrite Hname, He. reflexivity.
    + apply extract_one_other. right. now apply String.eqb_neq.
  - apply extract_one_other. left. now apply String.eqb_neq.
Qed.

Lemma extract_all_keeps (m : pathParameterExtractor (Schema := Schema)) name v ps :
  forall req,
  (forall p r, In p ps -> ParamIn p = "path" -> ParamName p = name ->
     ConvertPrimitive (extractor m r name) (ParamType p) (ParamFormat p) = inl v) ->
  GetPathParam req name = Some v ->
  GetPathParam (extract_all m ps req) name = Some v.
Proof.
  induction ps as [|p ps IH]; intros req Hok Hreq; [exact Hreq|].
  rewrite extract_all_cons.
  apply IH; [intros q r Hq; apply Hok; now right|].
  destruct (String.eqb (ParamIn p) "path") eqn:Hin.
  - destruct (String.eqb (ParamName p) name) eqn:Hname.
    + apply String.eqb_eq in Hin, Hname.
      unfold extract_one. rewrite Hin. cbn.
      rewrite Hname, (Hok p req (or_introl eq_refl) Hin Hname).
      rewrite GetPathParam_WithValue. now rewrite String.eqb_refl.
    + rewrite extract_one_other; [exact Hreq|].
      right. now apply String.eqb_neq.
  - rewrite extract_one_other; [exact Hreq|].
    left. now apply String.eqb_neq.
Qed.

Lemma extract_all_sets (m : pathParameterExtractor (Schema := Schema)) name v ps :
  forall req,
  (forall p r, In p ps -> ParamIn p = "path" -> ParamName p = name ->
     ConvertPrimitive (extractor m r name) (ParamType p) (ParamFormat p) = inl v) ->
  (exists p, In p ps /\ ParamIn p = "path" /\ ParamName p = name) ->
  GetPathParam (extract_all m ps req) name = Some v.
Proof.
  induction ps as [|p ps IH]; intros req Hok (q & Hq & Hin & Hname);
    [destruct Hq|].
  rewrite extract_all_cons.
  destruct (String.eqb (ParamIn p) "path" && String.eqb (ParamName p) name)
    eqn:Hp.
  - apply andb_true_iff in Hp as [Hpin Hpname].
    apply String.eqb_eq in Hpin, Hpname.
    apply extract_all_keeps; [intros q' r Hq'; apply Hok; now right|].
    unfold extract_one. rewrite Hpin. cbn.
    rewrite Hpname, (Hok p req (or_introl eq_refl) Hpin Hpname).
    rewrite GetPathParam_WithValue. now rewrite String.eqb_refl.
  - apply IH; [intros q' r Hq'; apply Hok; now right|].
    destruct Hq as [->|Hq]; [|eauto].
    rewrite Hin, Hname, !String.eqb_refl in Hp. discriminate.
Qed.

Lemma ConvertPrimitive_integer_12 format :
  format = "" \/ format = "int64" \/ format = "int32" ->
  ConvertPrimitive "12" "integer" format
  = inl (if String.eqb format "int32" then VInt32 12 else VInt64 12).
Proof. intros [->|[->| ->]]; reflexivity. Qed.

Lemma ConvertPrimitive_integer_abc format :
  exists e, ConvertPrimitive "abc" "integer" format = inr e.
Proof.
  unfold ConvertPrimitive, convertInteger. cbn.
  destruct (String.eqb format "int32"); [eauto|].
  destruct (String.eqb format "int64" || String.eqb format ""); eauto.
Qed.

(** C6. For a matched operation that declares the path parameter [id] of
    type integer (with one of the integer formats, or none), and no other
    path parameter of that name: the extractor hands the downstream handler
    a request that differs only in its metadata and writes nothing itself;
    when the raw value extracted for [id] is [12], [GetPathParam] on that
    request returns the integer 12; when it is [abc], no value is set
    ([GetPathParam] returns what it returned before, absent on a request
    that carried none); and for every name, when the conversion of every
    path-located parameter of that name fails, nothing is set under that
    name. *)
Theorem path_parameter_round_trip
  (m : pathParameterExtractor (Schema := Schema)) (next : Handler)
  w req σ op pid :
  GetOperation req = Some op ->
  In pid (Params op) ->
  ParamIn pid = "path" -> ParamName pid = "id" -> ParamType pid = "integer" ->
  ParamFormat pid = "" \/ ParamFormat pid = "int64" \/ ParamFormat pid = "int32" ->
  (forall p, In p (Params op) -> ParamIn p = "path" -> ParamName p = "id" ->
             p = pid) ->
  let req' := extract_all m (Params op) req in
  pathParameterExtractor_Apply m next w req σ = next w req' σ
  /\ URLQuery req' = URLQuery req /\ Body req' = Body req
  /\ GetOperation req' = Some op
  /\ ((forall r, extractor m r "id" = "12") ->
      GetPathParam req' "id"
      = Some (if String.eqb (ParamFormat pid) "int32" then VInt32 12
              else VInt64 12))
  /\ ((forall r, extractor m r "id" = "abc") ->
      GetPathParam req' "id" = GetPathParam req "id"
      /\ (GetPathParam req "id" = None -> GetPathParam req' "id" = None))
  /\ (forall name,
        (forall p r, In p (Params op) -> ParamIn p = "path" ->
           ParamName p = name ->
           exists e, ConvertPrimitive (extractor m r name) (ParamType p)
                                      (ParamFormat p) = inr e) ->
        GetPathParam req' name = GetPathParam req name).
Proof.
  intros Hop Hpid Hin Hname Htype Hformat Hunique req'.
  destruct (extract_all_frame m (Params op) req) as (Hq & Hb & Ho).
  split; [unfold pathParameterExtractor_Apply; now rewrite Hop|].
  split; [exact Hq|]. split; [exact Hb|].
  split; [subst req'; now rewrite Ho|].
  split; [|split].
  - intros Hraw. apply extract_all_sets; [|eauto].
    intros p r Hp Hpin Hpname.
    rewrite (Hunique p Hp Hpin Hpname), Hraw, Htype.
    now apply ConvertPrimitive_integer_12.
  - intros Hraw.
    assert (GetPathParam req' "id" = GetPathParam req "id") as Hsame.
    { apply extract_all_skips. intros p r Hp Hpin Hpname.
      rewrite (Hunique p Hp Hpin Hpname), Hraw, Htype.
      apply ConvertPrimitive_integer_abc. }
    split; [exact Hsame|]. intros Hnone. now rewrite Hsame.
  - intros name Hfail. now apply extract_all_skips.
Qed.

(** *** The response recorder and the response validator *)

Lemma client_WriteHeader (w : ResponseWriter) code : forall σ : World (Schema := Schema),
  client (WriteHeader w code σ) = Sink_WriteHeader code (client σ).
Proof. induction w as [|id under IH]; intros σ; cbn; [reflexivity|now rewrite IH]. Qed.

Lemma client_Write (w : ResponseWriter) data : forall σ : World (Schema := Schema),
  client (Write w data σ) = Sink_Write data (client σ).
Proof. induction w as [|id under IH]; intros σ; cbn; [reflexivity|now rewrite IH]. Qed.

Lemma client_run_op w (σ : World (Schema := Schema)) op :
  client (run_op w σ op) = Sink_op (client σ) op.
Proof. destruct op; [apply client_WriteHeader|apply client_Write]. Qed.

(** All writes pass through: whatever writer a script is run on, the client
    receives the script's writes. *)
Lemma client_run_script ops : forall w (σ : World (Schema := Schema)),
  client (run_script ops w σ) = fold_left Sink_op ops (client σ).
Proof.
  induction ops as [|op ops IH]; intros w σ; [reflexivity|].
  unfold run_script in *. cbn. now rewrite IH, client_run_op.
Qed.

Lemma recorders_WriteHeader_other (w : ResponseWriter) code id :
  forall σ : World (Schema := Schema),
  id ∉ writer_ids w ->
  recorders (WriteHeader w code σ) !! id = recorders σ !! id.
Proof.
  induction w as [|id' under IH]; intros σ Hid; cbn in *; [reflexivity|].
  rewrite IH by set_solver. cbn. apply lookup_alter_ne. set_solver.
Qed.

Lemma recorders_Write_other (w : ResponseWriter) data id :
  forall σ : World (Schema := Schema),
  id ∉ writer_ids w ->
  recorders (Write w data σ) !! id = recorders σ !! id.
Proof.
  induction w as [|id' under IH]; intros σ Hid; cbn in *; [reflexivity|].
  rewrite IH by set_solver. cbn. apply lookup_alter_ne. set_solver.
Qed.

Lemma recorders_run_op w id (σ : World (Schema := Schema)) op :
  id ∉ writer_ids w ->
  recorders (run_op (RecorderWriter id w) σ op) !! id
  = (fun rc => Recorder_op rc op) <$> recorders σ !! id.
Proof.
  intros Hid. destruct op; cbn.
  - rewrite recorders_WriteHeader_other by exact Hid. cbn.
    apply lookup_alter_eq.
  - rewrite recorders_Write_other by exact Hid. cbn.
    apply lookup_alter_eq.
Qed.

(** The recorder captures the script that went through it. *)
Lemma recorders_run_script w id ops : forall (σ : World (Schema := Schema)) rc,
  id ∉ writer_ids w ->
  recorders σ !! id = Some rc ->
  recorders (run_script ops (RecorderWriter id w) σ) !! id
  = Some (fold_left Recorder_op ops rc).
Proof.
  induction ops as [|op ops IH]; intros σ rc Hid Hrc; [exact Hrc|].
  unfold run_script in *. cbn [fold_left].
  apply IH; [exact Hid|].
  rewrite recorders_run_op by exact Hid. now rewrite Hrc.
Qed.

(** C4, as the code has it. Around a handler that writes its response, the
    response validator leaves every write of the handler untouched on its
    way to the client, and then, exactly when it finds schema violations for
    the recorded status and payload, calls the error handler on the client's
    own writer: the client receives the handler's writes followed by
    whatever the error handler writes. When no violation is reported, or the
    error handler writes nothing, the client receives exactly what the
    handler wrote. *)
Theorem responseBodyValidator_client
  (report : list Error -> list WriterOp) (ops : list WriterOp)
  w req (σ : World (Schema := Schema)) :
  writer_ids w ⊆ dom (recorders σ) ->
  let reported :=
    match GetOperation req with
    | None => []
    | Some op =>
        match response_violations ValidateBySchema op
                (rec_status (recorded ops)) (rec_payload (recorded ops)) with
        | [] => []
        | errs => report errs
        end
    end in
  client (script_handler ops w req σ) = fold_left Sink_op ops (client σ)
  /\ client (responseBodyValidator_Apply ValidateBySchema
               (NewResponseBodyValidator (script_errHandler report))
               (script_handler ops) w req σ)
     = fold_left Sink_op (ops ++ reported) (client σ)
  /\ (reported = [] ->
      client (responseBodyValidator_Apply ValidateBySchema
                (NewResponseBodyValidator (script_errHandler report))
                (script_handler ops) w req σ)
      = client (script_handler ops w req σ)).
Proof.
  intros Hwf reported.
  assert (client (script_handler ops w req σ)
          = fold_left Sink_op ops (client σ)) as Hinner
    by apply client_run_script.
  assert (client (responseBodyValidator_Apply ValidateBySchema
                    (NewResponseBodyValidator (script_errHandler report))
                    (script_handler ops) w req σ)
          = fold_left Sink_op (ops ++ reported) (client σ)) as Hall.
  { subst reported. unfold responseBodyValidator_Apply.
    destruct (GetOperation req) as [op|];
      [|rewrite app_nil_r; apply client_run_script].
    unfold NewResponseRecorder. cbv zeta.
    set (id := fresh (dom (recorders σ))).
    set (σ1 := set_recorders _ σ).
    assert (id ∉ writer_ids w) as Hid
      by (intros Hin; apply (is_fresh (dom (recorders σ))); set_solver).
    pose proof (recorders_run_script w id ops σ1
                  {| rec_status := StatusOK; rec_payload := [] |} Hid
                  (lookup_insert_eq _ _ _)) as Hrec.
    fold (recorded ops) in Hrec.
    unfold script_handler.
    unfold Status, Payload. rewrite Hrec.
    unfold response_violations.
    destruct (StatusCodeResponses op !! rec_status (recorded ops))
      as [responseSpec|];
      [|cbv iota; now rewrite (app_nil_r ops), client_run_script].
    destruct (ResponseSchema responseSpec) as [schema|];
      [|cbv iota; now rewrite (app_nil_r ops), client_run_script].
    destruct (json.Unmarshal (rec_payload (recorded ops))) as [body|];
      [|cbv iota; now rewrite (app_nil_r ops), client_run_script].
    destruct (ValidateBySchema schema body) as [|e errs];
      [cbn [length Nat.ltb Nat.leb]; cbv iota;
       now rewrite (app_nil_r ops), client_run_script|].
    cbn [length Nat.ltb Nat.leb rv_errHandler NewResponseBodyValidator].
    unfold script_errHandler.
    now rewrite client_run_script, client_run_script, fold_left_app. }
  split; [exact Hinner|]. split; [exact Hall|].
  intros Hnone. rewrite Hall, Hnone, app_nil_r. now rewrite Hinner.
Qed.

(** C3 at a failing input. A request whose body is an empty JSON object
    followed by 600 spaces (602 bytes, a valid JSON text) decodes, and
    validates when the validator has no objection to the empty object; the
    downstream handler then finds only the first 512 bytes in the request
    body: the decoder stopped reading once the value was complete, and only
    what it read went through the tee. *)
Theorem bodyValidator_truncates_padded_body
  (errHandler : ErrHandler) (next : Handler) w req σ op :
  Body req = BodyReader Sample.padded_body ->
  GetOperation req = Some op ->
  ValidateBody (Params op) (bytes_of "{}") = [] ->
  bodyValidatorMiddleware_Apply ValidateBody (NewBodyValidator errHandler)
    next w req σ
  = next w (withBody req (BodyReader (firstn 512 Sample.padded_body))) σ
  /\ length Sample.padded_body = 602%nat
  /\ length (firstn 512 Sample.padded_body) = 512%nat
  /\ firstn 512 Sample.padded_body <> Sample.padded_body.
Proof.
  intros Hbody Hop Hval. split; [|split; [reflexivity|split; [reflexivity|]]].
  - unfold bodyValidatorMiddleware_Apply. rewrite Hbody, Hop.
    set (res := json.Decode _).
    assert (fst res = inl (bytes_of "{}")) as Hres
      by (vm_compute; reflexivity).
    assert (json.sink (json.r (snd res)) = firstn 512 Sample.padded_body)
      as Hsink by (vm_compute; reflexivity).
    destruct res as [body dec]. cbn [fst snd] in *. subst body.
    now rewrite Hval, Hsink.
  - intros Heq. apply (f_equal (@length byte)) in Heq.
    vm_compute in Heq. discriminate.
Qed.

End MiddlewareProperties.

(** ** The router *)

Section RouterProperties.
Context `{rt : GoRuntime} {Schema : Type}.

Lemma calls_on_call r c (st : BuildState (Schema := Schema)) :
  calls_on r (BaseRouter_call r c st) = (calls_on r st ++ [c])%list.
Proof. unfold calls_on, BaseRouter_call. cbn. now rewrite lookup_insert_eq. Qed.


Lemma calls_on_logf r l lvl msg (st : BuildState (Schema := Schema)) :
  calls_on r (logf l lvl msg st) = calls_on r st.
Proof. now destruct l. Qed.

Lemma calls_on_route_operation opts handlers sub method
  (st : BuildState (Schema := Schema)) pathOp :
  calls_on sub (route_operation opts handlers sub method st pathOp)
  = (calls_on sub st
     ++ match handlers !! ID (snd pathOp) with
        | None => []
        | Some h => [Route method (fst pathOp) (composed (mws opts) h (snd pathOp))]
        end)%list.
Proof.
  destruct pathOp as [path op]. unfold route_operation. cbn [fst snd].
  destruct (handlers !! ID op) as [h|].
  - now rewrite calls_on_call, calls_on_logf.
  - now rewrite calls_on_logf, app_nil_r.
Qed.

Lemma calls_on_route_method opts handlers sub methodOps :
  forall st : BuildState (Schema := Schema),
  calls_on sub (route_method opts handlers sub st methodOps)
  = (calls_on sub st ++ routes_of_method (mws opts) handlers methodOps)%list.
Proof.
  destruct methodOps as [method pathOps].
  unfold route_method, routes_of_method. cbn [fst snd].
  induction pathOps as [|pathOp pathOps IH]; intros st; cbn [fold_left flat_map].
  - now rewrite app_nil_r.
  - now rewrite IH, calls_on_route_operation, <- app_assoc.
Qed.

Lemma calls_on_route_all opts handlers sub ops :
  forall st : BuildState (Schema := Schema),
  calls_on sub (fold_left (route_method opts handlers sub) ops st)
  = (calls_on sub st ++ flat_map (routes_of_method (mws opts) handlers) ops)%list.
Proof.
  induction ops as [|methodOps ops IH]; intros st; cbn [fold_left flat_map].
  - now rewrite app_nil_r.
  - now rewrite IH, calls_on_route_method, <- app_assoc.
Qed.

(** What [NewRouter] does on every input: there is one engine,
    [baseRouter] of the options. The routes are registered on it, it is
    mounted on itself at the base path, and it is returned, with a nil
    error. *)
Lemma NewRouter_calls (sw : Swagger (Schema := Schema)) handlers options st :
  let st0 := snd (defaultBaseRouter st) in
  let opts := apply_options options (default_options (fst (defaultBaseRouter st))) in
  let '(router, err, st') := NewRouter sw handlers options st in
  router = baseRouter opts
  /\ err = None
  /\ calls_on router st'
     = (calls_on router st0 ++ routes_of (mws opts) handlers sw
        ++ [Mount (BasePath sw) (RouterHandler router)])%list.
Proof.
  unfold NewRouter. destruct (defaultBaseRouter st) as [br st0]. cbn [fst snd].
  repeat split.
  now rewrite calls_on_call, calls_on_route_all, <- app_assoc.
Qed.

Lemma routes_of_In mws handlers (sw : Swagger (Schema := Schema))
  method pathOps path op h :
  In (method, pathOps) (Operations sw) ->
  In (path, op) pathOps ->
  handlers !! ID op = Some h ->
  In (Route method path (composed mws h op)) (routes_of mws handlers sw).
Proof.
  intros Hm Hp Hh. unfold routes_of. apply in_flat_map.
  exists (method, pathOps). split; [exact Hm|].
  unfold routes_of_method. apply in_flat_map.
  exists (path, op). split; [exact Hp|].
  cbn [fst snd]. rewrite Hh. now left.
Qed.

(** C1, as the code has it. With custom middleware A appended first and B
    second, the handler registered for an operation whose handler is H is
    the operation-identity stamp around B around A around H: it was built
    by wrapping H with A, then B, then the stamp. At request time the stamp
    runs first, then B, then A, then H, and each of them can read the
    matched operation. *)
Theorem middleware_order (A B : MiddlewareFn) (H : Handler)
  (sw : Swagger (Schema := Schema)) handlers st method pathOps path op :
  In (method, pathOps) (Operations sw) ->
  In (path, op) pathOps ->
  handlers !! ID op = Some H ->
  let '(router, _, st') :=
    NewRouter sw handlers [MiddlewareOpt A; MiddlewareOpt B] st in
  In (Route method path (operationIDMiddleware (B (A H)) op))
     (calls_on router st')
  /\ (forall w req σ,
        operationIDMiddleware (B (A H)) op w req σ
        = B (A H) w
            (WithContext req (WithValue (Ctx req) contextKeyOperation
                                        (OperationValue op))) σ)
  /\ (forall w req σ,
        journal (operationIDMiddleware
                   (announce "B" (announce "A" (announce_handler "H")))
                   op w req σ)
        = (journal σ
           ++ [Entered "B" (Some (ID op)); Entered "A" (Some (ID op));
               Entered "H" (Some (ID op))])%list).
Proof.
  intros Hm Hp Hh.
  pose proof (NewRouter_calls sw handlers
                [MiddlewareOpt A; MiddlewareOpt B] st) as Hcalls.
  cbv zeta in Hcalls.
  destruct (NewRouter _ _ _ _) as [[router err] st'].
  destruct Hcalls as (_ & _ & ->).
  split; [|split].
  - apply in_or_app. right. apply in_or_app. left.
    change (mws (apply_options [MiddlewareOpt A; MiddlewareOpt B]
                   (default_options (fst (defaultBaseRouter st)))))
      with [A; B].
    apply (routes_of_In [A; B] _ _ _ _ _ _ _ Hm Hp Hh).
  - reflexivity.
  - intros w req σ. cbn. now rewrite <- !app_assoc.
Qed.

(** C10. [NewRouter] returns a nil error on every contract, registry and
    option list, the empty registry included. *)
Theorem NewRouter_never_fails (sw : Swagger (Schema := Schema))
  (handlers : OperationHandlers) (options : list RouterOption) st :
  snd (fst (NewRouter sw handlers options st)) = None
  /\ snd (fst (NewRouter sw ∅ options st)) = None.
Proof.
  unfold NewRouter. destruct (defaultBaseRouter st) as [br st0].
  split; reflexivity.
Qed.

(** With no handler registered for any operation, nothing is routed: the
    only call the engine sees is the mount. *)
Lemma routes_of_empty_registry mws (sw : Swagger (Schema := Schema)) :
  routes_of mws (∅ : gmap string Handler) sw = [].
Proof.
  assert (forall methodOps,
            routes_of_method mws (∅ : gmap string Handler) methodOps = [])
    as Hm.
  { intros [method pathOps]. unfold routes_of_method. cbn [fst snd].
    induction pathOps as [|[path op] pathOps IHp]; [reflexivity|].
    cbn [flat_map fst snd]. rewrite IHp, app_nil_r.
    now rewrite (lookup_empty (ID op)). }
  unfold routes_of.
  induction (Operations sw) as [|methodOps ops IH]; [reflexivity|].
  cbn [flat_map]. now rewrite IH, Hm.
Qed.

End RouterProperties.

(** * Concrete runs *)

Section Runs.
Import Sample.
#[local] Existing Instance plain_rt.

Example ParseInt_samples :
  ParseInt "12" 10 64 = (12, None)
  /\ ParseInt "-9223372036854775808" 10 64 = (- 9223372036854775808, None)
  /\ ParseInt "9223372036854775808" 10 64 = (9223372036854775807, Some ErrRange)
  /\ ParseInt "2147483648" 10 32 = (2147483647, Some ErrRange)
  /\ ParseInt "+7" 10 32 = (7, None)
  /\ ParseInt "1_0" 10 32 = (0, Some ErrSyntax)
  /\ ParseInt "" 10 32 = (0, Some ErrSyntax).
Proof. repeat split. Qed.

Example ConvertPrimitive_samples :
  ConvertPrimitive "12" "integer" "int32" = inl (VInt32 12)
  /\ ConvertPrimitive "hello" "string" "" = inl (VString "hello")
  /\ ConvertPrimitive "hello" "string" "date" = inr (ErrUnknownFormat "date" "string")
  /\ ConvertPrimitive "Enabled" "boolean" "" = inl (VBool true)
  /\ ConvertPrimitive "nope" "boolean" "" = inl (VBool false)
  /\ ConvertPrimitive "1" "array" "" = inr (ErrUnknownType "array").
Proof. repeat split. Qed.

(** The claim of C1 fails on the petstore contract: with A appended before
    B, the handler registered for [GET /pet/{id}] enters B first, then A,
    then H, and B already reads the matched operation, so the stamp ran
    before both; the order A, B, stamp, H is not what happens. *)
Lemma middleware_claimed_order_fails :
  let '(router, _, st) :=
    NewRouter petstore handlers
      [MiddlewareOpt (announce "A"); MiddlewareOpt (announce "B")] build0 in
  exists h,
    lookup_route "GET" "/pet/{id}" (calls_on router st) = Some h
    /\ journal (h ClientWriter (request NoBody []) world0)
       = [Entered "B" (Some "getPet"); Entered "A" (Some "getPet");
          Entered "H" (Some "getPet")]
    /\ entered_names (journal (h ClientWriter (request NoBody []) world0))
       <> ["A"; "B"; "H"].
Proof.
  vm_compute. eexists. split; [reflexivity|]. split; [reflexivity|].
  discriminate.
Qed.

Lemma middleware_order_witness :
  let '(router, _, st') :=
    NewRouter petstore handlers
      [MiddlewareOpt (announce "A"); MiddlewareOpt (announce "B")] build0 in
  In (Route "GET" "/pet/{id}"
        (operationIDMiddleware
           (announce "B" (announce "A" (announce_handler "H"))) getPet))
     (calls_on router st').
Proof.
  pose proof (middleware_order (announce "A") (announce "B")
                (announce_handler "H") petstore handlers build0
                "GET" [("/pet/{id}", getPet)] "/pet/{id}" getPet
                (or_introl eq_refl) (or_introl eq_refl) eq_refl) as H.
  destruct (NewRouter _ _ _ _) as [[router err] st'].
  exact (proj1 H).
Defined.

(** C2 at a failing input. On the petstore contract with default options,
    the engine [NewRouter] returns is the one the operation was routed on,
    and the handler mounted on it at the base path is that same engine: no
    second router exists. *)
Theorem NewRouter_mounts_router_on_itself :
  let '(router, err, st) := NewRouter petstore handlers [] build0 in
  calls_on router st
  = [Route "GET" "/pet/{id}"
       (operationIDMiddleware (announce_handler "H") getPet);
     Mount "/v2" (RouterHandler router)]
  /\ dom (routers st) = {[router]}.
Proof. vm_compute. split; reflexivity. Qed.

Lemma bodyValidator_truncates_witness :
  journal
    (bodyValidatorMiddleware_Apply accept_body
       (NewBodyValidator probe_errHandler) probe_next ClientWriter
       (request (BodyReader padded_body) (matched getPet)) world0)
  = [CallNext ClientWriter
       (request (BodyReader (firstn 512 padded_body)) (matched getPet))].
Proof.
  exact (f_equal journal
           (proj1 (bodyValidator_truncates_padded_body accept_body
                     probe_errHandler probe_next ClientWriter
                     (request (BodyReader padded_body) (matched getPet))
                     world0 getPet eq_refl eq_refl eq_refl))).
Defined.

(** The claim of C4 fails: the handler sends status 200 and an empty JSON
    object, the schema validator objects, and the error handler's message
    is appended to what the client receives. *)
Lemma responseBodyValidator_alters_response :
  let inner := script_handler [OpWriteHeader 200; OpWrite (bytes_of "{}")] in
  let req := request NoBody (matched getPet) in
  client (inner ClientWriter req world0)
  = {| sent_status := Some 200; sent_body := bytes_of "{}" |}
  /\ client (responseBodyValidator_Apply reject_schema
               (NewResponseBodyValidator (script_errHandler report))
               inner ClientWriter req world0)
     = {| sent_status := Some 200;
          sent_body := bytes_of "{}contract violated" |}
  /\ client (responseBodyValidator_Apply reject_schema
               (NewResponseBodyValidator (script_errHandler report))
               inner ClientWriter req world0)
     <> client (inner ClientWriter req world0).
Proof. vm_compute. repeat split. discriminate. Qed.

Lemma responseBodyValidator_client_witness :
  writer_ids ClientWriter ⊆ dom (recorders world0)
  /\ client (responseBodyValidator_Apply reject_schema
               (NewResponseBodyValidator (script_errHandler report))
               (script_handler [OpWriteHeader 200; OpWrite (bytes_of "{}")])
               ClientWriter (request NoBody (matched getPet)) world0)
     = fold_left Sink_op
         ([OpWriteHeader 200; OpWrite (bytes_of "{}")]
          ++ report [ErrViolation "response does not match the schema"])
         (client world0).
Proof.
  assert (writer_ids ClientWriter ⊆ dom (recorders world0)) as Hwf
    by (cbn; apply empty_subseteq).
  split; [exact Hwf|].
  exact (proj1 (proj2 (responseBodyValidator_client reject_schema report
                         [OpWriteHeader 200; OpWrite (bytes_of "{}")]
                         ClientWriter (request NoBody (matched getPet))
                         world0 Hwf))).
Defined.

Lemma path_parameter_round_trip_witness :
  GetPathParam
    (extract_all (NewPathParameterExtractor (fun _ _ => "12"))
       (Params getPet) (request NoBody (matched getPet))) "id"
  = Some (VInt64 12)
  /\ GetPathParam
       (extract_all (NewPathParameterExtractor (fun _ _ => "abc"))
          (Params getPet) (request NoBody (matched getPet))) "id"
     = None.
Proof.
  assert (forall p, In p (Params getPet) -> ParamIn p = "path" ->
                    ParamName p = "id" -> p = idParam) as Hunique.
  { intros p [<-|[]] _ _. reflexivity. }
  split.
  - exact (proj1 (proj2 (proj2 (proj2 (proj2
             (path_parameter_round_trip
                (NewPathParameterExtractor (fun _ _ => "12")) probe_next
                ClientWriter (request NoBody (matched getPet)) world0 getPet
                idParam eq_refl (or_introl eq_refl) eq_refl eq_refl eq_refl
                (or_introl eq_refl) Hunique)))))
             (fun _ => eq_refl)).
  - exact (proj2 (proj1 (proj2 (proj2 (proj2 (proj2 (proj2
             (path_parameter_round_trip
                (NewPathParameterExtractor (fun _ _ => "abc")) probe_next
                ClientWriter (request NoBody (matched getPet)) world0 getPet
                idParam eq_refl (or_introl eq_refl) eq_refl eq_refl eq_refl
                (or_introl eq_refl) Hunique))))))
             (fun _ => eq_refl)) eq_refl).
Defined.

Lemma queryValidator_witness :
  GetOperation (request NoBody (matched getPet)) = Some getPet
  /\ journal (queryValidatorMiddleware_Apply reject_query
                (NewQueryValidator probe_errHandler) probe_next ClientWriter
                (request NoBody (matched getPet)) world0)
     = [CallErrHandler ClientWriter [ErrViolation "param limit is required"]]
  /\ journal (queryValidatorMiddleware_Apply accept_query
                (NewQueryValidator probe_errHandler) probe_next ClientWriter
                (request NoBody (matched getPet)) world0)
     = [CallNext ClientWriter (request NoBody (matched getPet))].
Proof.
  split; [reflexivity|]. split.
  - apply (queryValidator_reports_or_continues reject_query probe_errHandler
             probe_next ClientWriter (request NoBody (matched getPet)) world0
             getPet eq_refl).
    discriminate.
  - apply (queryValidator_reports_or_continues accept_query probe_errHandler
             probe_next ClientWriter (request NoBody (matched getPet)) world0
             getPet eq_refl).
    reflexivity.
Defined.

(** The claim of C8 fails for a body that is present and empty: a reader
    other than [http.NoBody] that delivers no byte. With a matched operation
    the decoder reports an error, the error handler is called and the
    downstream handler is not. *)
Lemma bodyValidator_empty_stream_rejected :
  let req := request (BodyReader []) (matched getPet) in
  body_bytes (Body req) = []
  /\ journal (bodyValidatorMiddleware_Apply accept_body
                (NewBodyValidator probe_errHandler) probe_next ClientWriter
                req world0)
     = [CallErrHandler ClientWriter [ErrInvalidJSON]]
  /\ bodyValidatorMiddleware_Apply accept_body
       (NewBodyValidator probe_errHandler) probe_next ClientWriter req world0
     <> probe_next ClientWriter req world0.
Proof. vm_compute. repeat split. discriminate. Qed.

Lemma bodyValidator_pass_through_witness :
  journal (bodyValidatorMiddleware_Apply accept_body
             (NewBodyValidator probe_errHandler) probe_next ClientWriter
             (request NoBody (matched getPet)) world0)
  = [CallNext ClientWriter (request NoBody (matched getPet))]
  /\ journal (bodyValidatorMiddleware_Apply accept_body
                (NewBodyValidator probe_errHandler) probe_next ClientWriter
                (request (BodyReader (bytes_of "not json")) []) world0)
     = [CallNext ClientWriter (request (BodyReader (bytes_of "not json")) [])].
Proof.
  split.
  - apply (bodyValidator_pass_through accept_body probe_errHandler probe_next
             ClientWriter (request NoBody (matched getPet)) world0).
    left. reflexivity.
  - apply (bodyValidator_pass_through accept_body probe_errHandler probe_next
             ClientWriter (request (BodyReader (bytes_of "not json")) [])
             world0).
    right. reflexivity.
Defined.

Lemma ConvertParameter_cases_witness :
  ConvertParameter ["1"; "2"] "array" "" = inr (ErrNotImplemented "array")
  /\ ConvertParameter ["1"; "2"] "integer" "" = inr (ErrValuesCount 2)
  /\ ConvertParameter ["12"] "integer" ""
     = ConvertPrimitive "12" "integer" "".
Proof.
  split; [|split].
  - apply (ConvertParameter_cases ["1"; "2"] "array" ""). left. reflexivity.
  - apply (ConvertParameter_cases ["1"; "2"] "integer" ""); discriminate.
  - apply (ConvertParameter_cases ["12"] "integer" ""); try discriminate.
    reflexivity.
Defined.

End Runs.

(** * Further properties *)

(** ** convert.go *)

Section ConvertFurther.
Context `{rt : GoRuntime}.

Lemma convertInteger_exact val :
  ConvertPrimitive val "integer" "int32"
  = match parses_signed 32 val with
    | Some z => inl (VInt32 z)
    | None => inr (ErrCannotConvert val "int32")
    end
  /\ ConvertPrimitive val "integer" "int64"
     = match parses_signed 64 val with
       | Some z => inl (VInt64 z)
       | None => inr (ErrCannotConvert val "int64")
       end
  /\ ConvertPrimitive val "integer" ""
     = match parses_signed 64 val with
       | Some z => inl (VInt64 z)
       | None => inr (ErrCannotConvert val "int64")
       end.
Proof.
  pose proof (ParseInt_spec val 32 (or_introl eq_refl)) as H32.
  pose proof (ParseInt_spec val 64 (or_intror eq_refl)) as H64.
  unfold ConvertPrimitive, convertInteger. cbn.
  destruct (ParseInt val 10 32) as [i [e|]]; cbn in H32; rewrite <- H32;
    destruct (ParseInt val 10 64) as [j [e'|]]; cbn in H64; rewrite <- H64;
    repeat split;
    symmetry in H32; apply parses_signed_range in H32;
    now rewrite to_int32_small by lia.
Qed.

Lemma parses_signed_widen val z :
  parses_signed 32 val = Some z -> parses_signed 64 val = Some z.
Proof.
  unfold parses_signed. destruct (decimal_literal val) as [v|]; [|discriminate].
  destruct ((- 2 ^ (32 - 1) <=? v) && (v <=? 2 ^ (32 - 1) - 1)) eqn:E;
    [|discriminate].
  intros [= <-]. apply andb_true_iff in E as [Hlo Hhi].
  apply Z.leb_le in Hlo, Hhi.
  assert ((- 2 ^ (64 - 1) <=? v) && (v <=? 2 ^ (64 - 1) - 1) = true) as ->;
    [|reflexivity].
  apply andb_true_iff. split; apply Z.leb_le; lia.
Qed.

Lemma parses_signed_narrow val z :
  parses_signed 64 val = Some z ->
  parses_signed 32 val
  = if (- 2 ^ 31 <=? z) && (z <=? 2 ^ 31 - 1) then Some z else None.
Proof.
  unfold parses_signed. destruct (decimal_literal val) as [v|]; [|discriminate].
  destruct ((- 2 ^ (64 - 1) <=? v) && (v <=? 2 ^ (64 - 1) - 1));
    [|discriminate].
  now intros [= <-].
Qed.

(** X1. The integer formats agree with each other: the empty format behaves
    as [int64]; a value that converts as [int32] converts as [int64] to the
    same number; a value that converts as [int64] converts as [int32] to the
    same number when it fits 32 bits and is refused otherwise, never
    wrapped. *)
Theorem integer_formats_agree (val : string) :
  ConvertPrimitive val "integer" "" = ConvertPrimitive val "integer" "int64"
  /\ (forall z, ConvertPrimitive val "integer" "int32" = inl (VInt32 z) ->
                ConvertPrimitive val "integer" "int64" = inl (VInt64 z))
  /\ (forall z, ConvertPrimitive val "integer" "int64" = inl (VInt64 z) ->
                ConvertPrimitive val "integer" "int32"
                = if (- 2 ^ 31 <=? z) && (z <=? 2 ^ 31 - 1)
                  then inl (VInt32 z)
                  else inr (ErrCannotConvert val "int32")).
Proof.
  destruct (convertInteger_exact val) as (H32 & H64 & H0).
  split; [now rewrite H0, H64|]. split.
  - intros z H. rewrite H32 in H. rewrite H64.
    destruct (parses_signed 32 val) as [z'|] eqn:Hp; [|discriminate].
    inversion H; subst z'. now rewrite (parses_signed_widen _ _ Hp).
  - intros z H. rewrite H64 in H. rewrite H32.
    destruct (parses_signed 64 val) as [z'|] eqn:Hp; [|discriminate].
    inversion H; subst z'. rewrite (parses_signed_narrow _ _ Hp).
    now destruct ((- 2 ^ 31 <=? z) && (z <=? 2 ^ 31 - 1)).
Qed.

(** X2. Boolean conversion only looks at the value up to the case of its
    ASCII letters, and never at the format: two ASCII values that are equal
    up to case convert to the same boolean under any two formats. *)
Theorem boolean_ignores_ascii_case (a b format format' : string) :
  isASCII a = true -> isASCII b = true -> ascii_fold_eqb a b = true ->
  ConvertPrimitive a "boolean" format = ConvertPrimitive b "boolean" format'.
Proof.
  intros Ha Hb Hfold. unfold ConvertPrimitive, convertBoolean. cbn.
  apply String.eqb_eq in Hfold.
  now rewrite (ToLower_ascii a Ha), (ToLower_ascii b Hb), Hfold.
Qed.

End ConvertFurther.

(** ** The router, further *)

Section RouterFurther.
Context `{rt : GoRuntime} {Schema : Type}.

Lemma last_cons_default {A} (x : A) l d : List.last (x :: l) d = List.last l x.
Proof.
  revert x d. induction l as [|y l IH]; intros x d; [reflexivity|].
  change (List.last (x :: y :: l) d) with (List.last (y :: l) d).
  now rewrite (IH y d), (IH y x).
Qed.

Lemma apply_options_spec (os : list (OptionSpec (Schema := Schema))) :
  forall d,
  let opts := apply_options (map to_option os) d in
  mws opts = (mws d ++ middleware_given os)%list
  /\ baseRouter opts = List.last (base_routers_given os) (baseRouter d)
  /\ logger opts = List.last (loggers_given os) (logger d).
Proof.
  induction os as [|o os IH]; intros d.
  - cbn. now rewrite app_nil_r.
  - cbn [map]. unfold apply_options in *. cbn [fold_left].
    destruct (IH (to_option o d)) as (Hm & Hb & Hl).
    cbv zeta. rewrite Hm, Hb, Hl.
    destruct o as [l|br|mw]; cbn [to_option LoggerOpt BaseRouterOpt
      MiddlewareOpt mws baseRouter logger middleware_given base_routers_given
      loggers_given flat_map app].
    + now rewrite last_cons_default.
    + now rewrite last_cons_default.
    + now rewrite <- app_assoc.
Qed.

(** X3. Options are applied from left to right: the custom middleware
    accumulate in the order they are given, after those already configured;
    of several loggers or several base routers the last one given is used,
    and the default when none is given. [NewRouter] returns the base router
    so chosen, the default one being a newly created engine. *)
Theorem router_options_compose (os : list (OptionSpec (Schema := Schema)))
  (d : RouterOptions) (sw : Swagger) (handlers : OperationHandlers) st :
  mws (apply_options (map to_option os) d)
  = (mws d ++ middleware_given os)%list
  /\ baseRouter (apply_options (map to_option os) d)
     = List.last (base_routers_given os) (baseRouter d)
  /\ logger (apply_options (map to_option os) d)
     = List.last (loggers_given os) (logger d)
  /\ fst (fst (NewRouter sw handlers (map to_option os) st))
     = List.last (base_routers_given os) (fresh (dom (routers st))).
Proof.
  destruct (apply_options_spec os d) as (Hm & Hb & Hl).
  repeat split; [exact Hm|exact Hb|exact Hl|].
  unfold NewRouter, defaultBaseRouter. cbn [fst].
  now destruct (apply_options_spec os
                  (default_options (fresh (dom (routers st))))) as (_ & -> & _).
Qed.

Lemma calls_on_default r (st : BuildState (Schema := Schema)) :
  calls_on r (snd (defaultBaseRouter st)) = calls_on r st.
Proof.
  unfold calls_on, defaultBaseRouter. cbn.
  destruct (decide (fresh (dom (routers st)) = r)) as [<-|Hne].
  - rewrite lookup_insert_eq.
    assert (routers st !! fresh (dom (routers st)) = None) as ->
      by (apply not_elem_of_dom, is_fresh).
    reflexivity.
  - now rewrite lookup_insert_ne.
Qed.




Lemma routes_of_iff mws handlers (sw : Swagger (Schema := Schema)) c :
  In c (routes_of mws handlers sw) <->
  exists method pathOps path op h,
    In (method, pathOps) (Operations sw) /\ In (path, op) pathOps
    /\ handlers !! ID op = Some h
    /\ c = Route method path (composed mws h op).
Proof.
  unfold routes_of. rewrite in_flat_map. split.
  - intros ([method pathOps] & Hm & Hc).
    unfold routes_of_method in Hc. apply in_flat_map in Hc.
    destruct Hc as ([path op] & Hp & Hc). cbn [fst snd] in Hc.
    destruct (handlers !! ID op) as [h|] eqn:Hh; [|destruct Hc].
    destruct Hc as [<-|[]]. exists method, pathOps, path, op, h. auto.
  - intros (method & pathOps & path & op & h & Hm & Hp & Hh & ->).
    exists (method, pathOps). split; [exact Hm|].
    unfold routes_of_method. apply in_flat_map.
    exists (path, op). split; [exact Hp|].
    cbn [fst snd]. rewrite Hh. now left.
Qed.

(** X5. The calls the returned router has received after [NewRouter] are
    the ones it had received before, the mount at the base path, and one
    route for each operation of the contract that has a registered handler:
    that handler wrapped by all the custom middleware and the stamp of its
    operation. An operation without a registered handler gets no route. *)
Theorem NewRouter_routes_characterised (sw : Swagger (Schema := Schema))
  (handlers : OperationHandlers) (options : list RouterOption) st c :
  let opts := apply_options options
                (default_options (fresh (dom (routers st)))) in
  let '(router, _, st') := NewRouter sw handlers options st in
  In c (calls_on router st') <->
  In c (calls_on router st)
  \/ (exists method pathOps path op h,
        In (method, pathOps) (Operations sw) /\ In (path, op) pathOps
        /\ handlers !! ID op = Some h
        /\ c = Route method path (composed (mws opts) h op))
  \/ c = Mount (BasePath sw) (RouterHandler router).
Proof.
  intros opts.
  pose proof (NewRouter_calls sw handlers options st) as Hcalls.
  cbv zeta in Hcalls.
  destruct (NewRouter sw handlers options st) as [[router err] st'].
  destruct Hcalls as (_ & _ & ->).
  rewrite calls_on_default, !in_app_iff, routes_of_iff. cbn [In].
  change (fst (defaultBaseRouter st)) with (fresh (dom (routers st))).
  fold opts. intuition.
Qed.

Lemma logged_call r c (st : BuildState (Schema := Schema)) :
  logged (BaseRouter_call r c st) = logged st.
Proof. reflexivity. Qed.

Lemma logged_route_method opts handlers sub method pathOps id :
  logger opts = UserLogger id ->
  forall st : BuildState (Schema := Schema),
  logged (route_method opts handlers sub st (method, pathOps))
  = (logged st
     ++ map (fun e => if is_unhandled handlers e then warning_for id e
                      else debug_for id e)
            (map (fun pathOp : string * Operation =>
                    (method, fst pathOp, snd pathOp)) pathOps))%list.
Proof.
  intros Hlog. unfold route_method.
  induction pathOps as [|[path op] pathOps IH]; intros st;
    cbn [fold_left map]; [now rewrite app_nil_r|].
  rewrite IH.
  assert (logged (route_operation opts handlers sub method st (path, op))
          = (logged st
             ++ [if is_unhandled handlers (method, path, op)
                 then warning_for id (method, path, op)
                 else debug_for id (method, path, op)])%list) as ->.
  { unfold route_operation, is_unhandled. cbn [fst snd]. rewrite Hlog.
    now destruct (handlers !! ID op) as [h|]. }
  now rewrite <- app_assoc.
Qed.

Lemma logged_route_method_discard opts handlers sub methodOps :
  logger opts = DiscardLogger ->
  forall st : BuildState (Schema := Schema),
  logged (route_method opts handlers sub st methodOps) = logged st.
Proof.
  intros Hlog. destruct methodOps as [method pathOps]. unfold route_method.
  induction pathOps as [|[path op] pathOps IH]; intros st;
    cbn [fold_left]; [reflexivity|].
  rewrite IH. unfold route_operation. rewrite Hlog.
  now destruct (handlers !! ID op).
Qed.

Lemma logged_route_all_discard opts handlers sub ops :
  logger opts = DiscardLogger ->
  forall st : BuildState (Schema := Schema),
  logged (fold_left (route_method opts handlers sub) ops st) = logged st.
Proof.
  intros Hlog. induction ops as [|methodOps ops IH]; intros st;
    cbn [fold_left]; [reflexivity|].
  now rewrite IH, logged_route_method_discard.
Qed.

Lemma logged_route_all opts handlers sub ops id :
  logger opts = UserLogger id ->
  forall st : BuildState (Schema := Schema),
  logged (fold_left (route_method opts handlers sub) ops st)
  = (logged st
     ++ map (fun e => if is_unhandled handlers e then warning_for id e
                      else debug_for id e)
            (flat_map (fun methodOps : string * list (string * Operation) =>
                         map (fun pathOp : string * Operation =>
                                (fst methodOps, fst pathOp, snd pathOp))
                             (snd methodOps)) ops))%list.
Proof.
  intros Hlog. induction ops as [|[method pathOps] ops IH]; intros st;
    cbn [fold_left flat_map]; [now rewrite app_nil_r|].
  rewrite IH, (logged_route_method _ _ _ _ _ id Hlog), map_app.
  cbn [fst snd]. now rewrite <- app_assoc.
Qed.

(** X6. With the default logger [NewRouter] logs nothing. With a logger
    given by [LoggerOpt] it logs one line per operation of the contract, in
    loop order: a warning naming the operation when no handler is
    registered for it, a debug line with method and path otherwise; the
    warnings are exactly one for each operation without a handler. *)
Theorem NewRouter_logging (sw : Swagger (Schema := Schema))
  (handlers : OperationHandlers) (options : list RouterOption) st :
  let opts := apply_options options
                (default_options (fresh (dom (routers st)))) in
  let st' := snd (NewRouter sw handlers options st) in
  (logger opts = DiscardLogger -> logged st' = logged st)
  /\ (forall id, logger opts = UserLogger id ->
        let lines :=
          map (fun e => if is_unhandled handlers e then warning_for id e
                        else debug_for id e) (all_operations sw) in
        logged st' = (logged st ++ lines)%list
        /\ List.filter is_warning lines
           = map (warning_for id)
                 (List.filter (is_unhandled handlers) (all_operations sw))).
Proof.
  intros opts st'. subst st'. unfold NewRouter, defaultBaseRouter.
  cbn [fst snd]. fold opts. rewrite logged_call.
  split.
  - intros Hlog. now rewrite logged_route_all_discard.
  - intros id Hlog. cbv zeta. split.
    + now rewrite (logged_route_all _ _ _ _ id Hlog).
    + induction (all_operations sw) as [|e es IH]; [reflexivity|].
      cbn [map List.filter]. destruct (is_unhandled handlers e); cbn; now rewrite IH.
Qed.

End RouterFurther.

(** ** json.Decoder on blank input *)

Lemma forallb_skipn {A} (f : A -> bool) n l :
  forallb f l = true -> forallb f (skipn n l) = true.
Proof.
  revert l. induction n as [|n IH]; intros [|x l]; cbn; auto.
  intros H. apply andb_true_iff in H as [_ H]. now apply IH.
Qed.

Lemma forallb_firstn {A} (f : A -> bool) n l :
  forallb f l = true -> forallb f (firstn n l) = true.
Proof.
  revert l. induction n as [|n IH]; intros [|x l]; cbn; auto.
  intros H. apply andb_true_iff in H as [Hx H]. rewrite Hx. now apply IH.
Qed.

Lemma nonSpace_blank l :
  forallb json.isSpace l = true -> json.nonSpace l = false.
Proof.
  unfold json.nonSpace. induction l as [|c l IH]; cbn; [reflexivity|].
  intros H. apply andb_true_iff in H as [Hc H]. rewrite Hc. now apply IH.
Qed.

Lemma scan_buffered_blank l : forall scanp,
  forallb json.isSpace l = true ->
  json.scan_buffered json.reset scanp l
  = json.NeedMore (scanp + length l) json.reset.
Proof.
  induction l as [|c l IH]; intros scanp H; cbn [json.scan_buffered length].
  - now rewrite Nat.add_0_r.
  - cbn [forallb] in H. apply andb_true_iff in H as [Hc H].
    unfold json.scanner_step, json.do_stateBeginValue. cbn [json.step json.reset].
    rewrite Hc. rewrite IH by exact H. f_equal. lia.
Qed.

Lemma readValue_blank fuel : forall d scanp (eof_seen : bool),
  json.scan d = json.reset ->
  forallb json.isSpace (json.buf d) = true ->
  forallb json.isSpace (json.src (json.r d)) = true ->
  fst (json.readValue fuel d scanp eof_seen) = inr json.EOF
  \/ fst (json.readValue fuel d scanp eof_seen) = inr json.OutOfFuel.
Proof.
  induction fuel as [|fuel IH]; intros d scanp eof_seen Hscan Hbuf Hsrc;
    [now right|].
  cbn -[json.refill json.scan_buffered json.scanner_step].
  rewrite Hscan, scan_buffered_blank by now apply forallb_skipn.
  cbn -[json.refill json.scanner_step].
  destruct eof_seen.
  - change (json.scanner_step json.reset " ")
      with (json.scanSkipSpace, json.reset).
    cbn [json.is_scanEnd]. rewrite (nonSpace_blank _ Hbuf). now left.
  - unfold json.refill, json.TeeReader_Read. cbn -[Nat.ltb Nat.mul].
    apply IH; cbn -[Nat.ltb Nat.mul].
    + reflexivity.
    + rewrite forallb_app, Hbuf. now apply forallb_firstn.
    + now apply forallb_skipn.
Qed.

(** A stream of JSON white space only, the empty stream included, makes
    [Decode] report the end of the input. *)
Lemma Decode_blank data :
  forallb json.isSpace data = true ->
  fst (json.Decode (json.NewDecoder {| json.src := data; json.sink := [] |}))
  = inr json.EOF.
Proof.
  intros Hblank.
  pose proof (Decode_total data) as Htotal.
  unfold json.Decode in *.
  pose proof (readValue_blank (length data + 2)
                (json.NewDecoder {| json.src := data; json.sink := [] |})
                0 false eq_refl eq_refl Hblank) as H.
  cbn in *.
  destruct (json.readValue _ _ _ _) as [[n|e] d']; cbn in *.
  - destruct H; discriminate.
  - destruct H as [H|H]; inversion H; subst e; [reflexivity|].
    now destruct Htotal.
Qed.

(** ** middleware.go, further *)

Section MiddlewareFurther.
Context `{rt : GoRuntime} {Schema : Type}.
Variable ValidateQuery
  : list (Param (Schema := Schema)) -> gmap string (list string) -> list Error.
Variable ValidateBody : list (Param (Schema := Schema)) -> json.Doc -> list Error.
Variable ValidateBySchema : Schema -> json.Doc -> list Error.

Lemma package_middleware_unmatched mw (h : Handler) w req σ :
  package_middleware ValidateQuery ValidateBody ValidateBySchema mw ->
  GetOperation req = None ->
  mw h w req σ = h w req σ.
Proof.
  intros Hmw Hop. destruct Hmw as [m|m|m|m].
  - unfold queryValidatorMiddleware_Apply. now rewrite Hop.
  - unfold bodyValidatorMiddleware_Apply. rewrite Hop. now destruct (Body req).
  - unfold pathParameterExtractor_Apply. now rewrite Hop.
  - unfold responseBodyValidator_Apply. now rewrite Hop.
Qed.

(** X7. A request with no matched operation goes through any stack of the
    package's middleware untouched: whatever validators and extractors are
    wrapped around a handler, in whatever order and number, the stack then
    behaves as the handler alone, with the same writer and request. *)
Theorem unmatched_chain_transparent (mws : list MiddlewareFn)
  (next : Handler) w req (σ : World (Schema := Schema)) :
  Forall (package_middleware ValidateQuery ValidateBody ValidateBySchema) mws ->
  GetOperation req = None ->
  fold_left (fun h mwf => mwf h) mws next w req σ = next w req σ.
Proof.
  intros Hall Hop.
  assert (forall h : Handler,
            h w req σ = next w req σ ->
            fold_left (fun h mwf => mwf h) mws h w req σ = next w req σ) as H.
  { induction Hall as [|mw mws Hmw Hall IH]; intros h Hh; cbn [fold_left];
      [exact Hh|].
    apply IH. now rewrite (package_middleware_unmatched mw h w req σ Hmw Hop). }
  now apply H.
Qed.

(** X8. On every request the body validator makes exactly one call: either
    the downstream handler, with the same writer and a request that has the
    same metadata and query and a body that is a prefix of the original
    one, or the error handler, with the same writer and a list of errors
    that is not empty. It never calls both and never calls neither. *)
Theorem bodyValidator_one_call w req (σ : World (Schema := Schema)) :
  exists e,
    journal (bodyValidatorMiddleware_Apply ValidateBody
               (NewBodyValidator probe_errHandler) probe_next w req σ)
    = (journal σ ++ [e])%list
    /\ ((exists req' unread,
           e = CallNext w req' /\ Ctx req' = Ctx req
           /\ URLQuery req' = URLQuery req
           /\ body_bytes (Body req)
              = (body_bytes (Body req') ++ unread)%list)
        \/ (exists errs, errs <> [] /\ e = CallErrHandler w errs)).
Proof.
  unfold bodyValidatorMiddleware_Apply.
  destruct (Body req) as [|data] eqn:Hbody.
  { eexists. split; [reflexivity|]. left. exists req, [].
    rewrite Hbody. auto. }
  destruct (GetOperation req) as [op|].
  2:{ eexists. split; [reflexivity|]. left. exists req, [].
      rewrite Hbody, app_nil_r. auto. }
  pose proof (Decode_tee_prefix data) as Hprefix. cbv zeta in Hprefix.
  destruct (json.Decode _) as [[body|err] dec]; cbn [snd] in Hprefix.
  - destruct (ValidateBody (Params op) body) as [|e errs]; cbn.
    + eexists. split; [reflexivity|]. left.
      eexists _, (json.src (json.r dec)). repeat split. exact Hprefix.
    + eexists. split; [reflexivity|]. right.
      eexists. split; [|reflexivity]. discriminate.
  - eexists. split; [reflexivity|]. right.
    eexists. split; [|reflexivity]. discriminate.
Qed.

(** X9. With a matched operation, a body that is present but holds only
    JSON white space (spaces, tabs, line ends; also no byte at all), however
    long, is refused: the error handler gets the single invalid-JSON error
    and the downstream handler is not called. *)
Theorem bodyValidator_rejects_blank_body
  (errHandler : ErrHandler) (next : Handler) w req σ op data :
  Body req = BodyReader data ->
  GetOperation req = Some op ->
  forallb json.isSpace data = true ->
  bodyValidatorMiddleware_Apply ValidateBody (NewBodyValidator errHandler)
    next w req σ
  = errHandler w [ErrInvalidJSON] σ.
Proof.
  intros Hbody Hop Hblank. unfold bodyValidatorMiddleware_Apply.
  rewrite Hbody, Hop.
  pose proof (Decode_blank data Hblank) as Hdec.
  destruct (json.Decode _) as [res dec]. cbn [fst] in Hdec. now subst res.
Qed.

(** *** The path-parameter extractor, further *)

Lemma extract_all_app (m : pathParameterExtractor (Schema := Schema)) ps1 ps2 req :
  extract_all m (ps1 ++ ps2) req = extract_all m ps2 (extract_all m ps1 req).
Proof. unfold extract_all. apply fold_left_app. Qed.

Lemma has_key_extract_one (m : pathParameterExtractor (Schema := Schema)) req p k :
  has_key req k = true -> has_key (extract_one m req p) k = true.
Proof.
  unfold extract_one. destruct (negb _); [auto|].
  destruct (ConvertPrimitive _ _ _); [|auto].
  unfold has_key. cbn [Ctx WithContext WithValue ctx_Value].
  now destruct (ctxKey_eqb (contextKeyPathParam (ParamName p)) k).
Qed.

(** X10. The extractor only adds path values: the request it hands on has
    the same matched operation, body and query, every piece of metadata the
    incoming request carried is still present, and under a name that no
    path-located parameter of the operation has, be it a query or body
    parameter or no parameter at all, [GetPathParam] returns what it returned
    before. *)
Theorem extractor_leaves_other_metadata
  (m : pathParameterExtractor (Schema := Schema)) ps req :
  GetOperation (extract_all m ps req) = GetOperation req
  /\ Body (extract_all m ps req) = Body req
  /\ URLQuery (extract_all m ps req) = URLQuery req
  /\ (forall k, has_key req k = true ->
                has_key (extract_all m ps req) k = true)
  /\ (forall name,
        (forall p, In p ps -> ParamName p = name -> ParamIn p <> "path") ->
        GetPathParam (extract_all m ps req) name = GetPathParam req name).
Proof.
  destruct (extract_all_frame m ps req) as (Hq & Hb & Ho).
  repeat split; auto.
  - intros k. revert req Hq Hb Ho.
    induction ps as [|p ps IH]; intros req _ _ _ Hk; [exact Hk|].
    rewrite extract_all_cons.
    destruct (extract_all_frame m ps (extract_one m req p)) as (Hq & Hb & Ho).
    apply IH; auto. now apply has_key_extract_one.
  - intros name Hnone. apply extract_all_skips.
    intros p r Hp Hin Hname. now destruct (Hnone p Hp Hname).
Qed.

(** X11. When a name is declared more than once among the path parameters,
    the last declaration that converts decides: if a path parameter converts
    to a value and every later path parameter of the same name fails to
    convert, [GetPathParam] returns that value, whatever earlier
    declarations or the incoming request had set. *)
Theorem extractor_last_conversion_wins
  (m : pathParameterExtractor (Schema := Schema)) ps1 p ps2 req v :
  ParamIn p = "path" ->
  (forall r, ConvertPrimitive (extractor m r (ParamName p)) (ParamType p)
                              (ParamFormat p) = inl v) ->
  (forall q r, In q ps2 -> ParamIn q = "path" -> ParamName q = ParamName p ->
     exists e, ConvertPrimitive (extractor m r (ParamName p)) (ParamType q)
                                (ParamFormat q) = inr e) ->
  GetPathParam (extract_all m (ps1 ++ p :: ps2) req) (ParamName p) = Some v.
Proof.
  intros Hin Hok Hfail.
  rewrite extract_all_app, extract_all_cons.
  rewrite extract_all_skips by exact Hfail.
  unfold extract_one. rewrite Hin.
  change (negb (String.eqb "path" "path")) with false. cbv iota.
  rewrite Hok.
  rewrite GetPathParam_WithValue. now rewrite String.eqb_refl.
Qed.

(** X12. The query validator and the path-parameter extractor can be
    stacked in either order: around any handler the two stacks behave the
    same, for any setting of the continue-on-error flag. *)
Theorem query_path_commute (mq : queryValidatorMiddleware)
  (mp : pathParameterExtractor (Schema := Schema)) (next : Handler) w req σ :
  queryValidatorMiddleware_Apply ValidateQuery mq
    (pathParameterExtractor_Apply mp next) w req σ
  = pathParameterExtractor_Apply mp
      (queryValidatorMiddleware_Apply ValidateQuery mq next) w req σ.
Proof.
  unfold queryValidatorMiddleware_Apply, pathParameterExtractor_Apply.
  destruct (GetOperation req) as [op|] eqn:Hop;
    [|cbv beta; now rewrite ?Hop].
  destruct (extract_all_frame mp (Params op) req) as (Hq & _ & Ho).
  cbv beta. rewrite ?Ho, ?Hq, ?Hop.
  destruct (0 <? length (ValidateQuery (Params op) (URLQuery req)))%nat;
    [|now rewrite ?Hop].
  destruct (continueOnError mq); cbn [negb]; now rewrite ?Hop.
Qed.

(** *** The response validator, further *)





End MiddlewareFurther.

Section MiddlewareSmallBody.
Context `{rt : GoRuntime} {Schema : Type}.
Variable ValidateBody : list (Param (Schema := Schema)) -> json.Doc -> list Error.


End MiddlewareSmallBody.

(** ** Further concrete runs *)

Section FurtherRuns.
Import Sample MoreSamples.
#[local] Existing Instance plain_rt.

Lemma boolean_ignores_ascii_case_witness :
  isASCII "TRUE" = true /\ isASCII "true" = true
  /\ ascii_fold_eqb "TRUE" "true" = true
  /\ ConvertPrimitive "TRUE" "boolean" "" = ConvertPrimitive "true" "boolean" "x".
Proof.
  split; [reflexivity|]. split; [reflexivity|]. split; [reflexivity|].
  exact (boolean_ignores_ascii_case "TRUE" "true" "" "x"
           eq_refl eq_refl eq_refl).
Defined.

Lemma unmatched_chain_transparent_witness :
  GetOperation (request (BodyReader (bytes_of "not json")) []) = None
  /\ fold_left (fun h mwf => mwf h)
       [queryValidatorMiddleware_Apply reject_query
          (NewQueryValidator probe_errHandler);
        bodyValidatorMiddleware_Apply accept_body
          (NewBodyValidator probe_errHandler);
        pathParameterExtractor_Apply
          (NewPathParameterExtractor (fun _ _ => "12"));
        responseBodyValidator_Apply reject_schema
          (NewResponseBodyValidator probe_errHandler)]
       probe_next ClientWriter
       (request (BodyReader (bytes_of "not json")) []) world0
     = probe_next ClientWriter
         (request (BodyReader (bytes_of "not json")) []) world0.
Proof.
  split; [reflexivity|].
  apply (unmatched_chain_transparent reject_query accept_body reject_schema).
  - repeat constructor.
  - reflexivity.
Defined.

Lemma bodyValidator_rejects_blank_body_witness :
  length blank_body = 700%nat
  /\ forallb json.isSpace blank_body = true
  /\ bodyValidatorMiddleware_Apply accept_body
       (NewBodyValidator probe_errHandler) probe_next ClientWriter
       (request (BodyReader blank_body) (matched getPet)) world0
     = probe_errHandler ClientWriter [ErrInvalidJSON] world0.
Proof.
  split; [reflexivity|]. split; [reflexivity|].
  exact (bodyValidator_rejects_blank_body accept_body probe_errHandler
           probe_next ClientWriter
           (request (BodyReader blank_body) (matched getPet)) world0 getPet
           blank_body eq_refl eq_refl eq_refl).
Defined.

Lemma extractor_last_conversion_wins_witness :
  GetPathParam
    (extract_all (NewPathParameterExtractor (fun _ _ => "12"))
       ([idFile] ++ idParam :: [idFile]) (request NoBody (matched getPet)))
    "id"
  = Some (VInt64 12).
Proof.
  apply (extractor_last_conversion_wins
           (NewPathParameterExtractor (fun _ _ => "12"))
           [idFile] idParam [idFile] (request NoBody (matched getPet))
           (VInt64 12) eq_refl).
  - intros r. reflexivity.
  - intros q r [<-|[]] _ _. eexists. reflexivity.
Defined.



(** The store contract has one operation with a handler and one without:
    one route, one warning. *)
Example NewRouter_store_run :
  let '(router, err, st) :=
    NewRouter store handlers [LoggerOpt (UserLogger 7)] build0 in
  err = None
  /\ length (calls_on router st) = 2%nat
  /\ logged st
     = [(7%nat, DebugLevel, "oas2 router: handle: GET /pet/{id}");
        (7%nat, WarnLevel,
         "oas2 router: no handler registered for operation listPets")].
Proof. vm_compute. repeat split. Qed.

End FurtherRuns.
